(** * Training agent: orchestration core

    A shallow embedding of the bounded conversation history
    ([training_agent/agent.py], [TrainingAgent._truncate_old_images]), of the
    progress store ([training_agent/state.py]) and of the bookkeeping
    dispatcher ([TrainingAgent._execute_custom_tool]), with the properties
    the specification states about them. *)

From stdpp Require Import gmap strings list fin_maps pretty.

Local Open Scope string_scope.
#[local] Set Warnings "-register-all".

(** ** Conversation history *)

Module History.

(** The ["source"] record of an image block.  [take_screenshot] returns
    [Optional[str]], so the payload may be [None]. *)
Record ImageSource := {
  source_type : string;
  media_type : string;
  data : option string
}.

(** An entry of the ["content"] list of a tool-result block: a text
    dictionary or an image dictionary.  The code deletes ["source"] only
    when the key is there, so an image may come without one. *)
Inductive ResultItem :=
| RText (text : string)
| RImage (source : option ImageSource).

(** ["content"] of a tool-result block: the API takes a string or a list. *)
Inductive ResultContent :=
| RStr (s : string)
| RList (items : list ResultItem).

(** An entry of a turn's content list.  [BThinking] and [BToolUse] are the
    blocks of the decision service's replies. *)
Inductive Block :=
| BText (text : string)
| BImage (source : ImageSource)
| BToolResult (tool_use_id : string) (content : ResultContent)
| BThinking (thinking : string)
| BToolUse (id name : string).

(** A turn's ["content"]: a plain string or a list of blocks. *)
Inductive Content :=
| CStr (s : string)
| CList (items : list Block).

Record Message := { role : string; content : Content }.

Definition placeholder : string := "[Previous screenshot removed to save context]".

Definition png (screenshot : option string) : ImageSource :=
  {| source_type := "base64"; media_type := "image/png"; data := screenshot |}.

(** A [for] loop that rewrites the elements of a list in place while it
    carries [image_count] from one element to the next. *)
Fixpoint for_each {A : Type} (body : nat → A → nat * A)
    (image_count : nat) (l : list A) : nat * list A :=
  match l with
  | [] => (image_count, [])
  | x :: l' =>
      let '(c1, x') := body image_count x in
      let '(c2, l'') := for_each body c1 l' in
      (c2, x' :: l'')
  end.

(** Body of [for result_item in result_content]. *)
Definition visit_result_item (keep_recent : Z) (image_count : nat)
    (result_item : ResultItem) : nat * ResultItem :=
  match result_item with
  | RImage _ =>
      let image_count := S image_count in
      if (keep_recent <? Z.of_nat image_count)%Z
      then (image_count, RText placeholder)
      else (image_count, result_item)
  | RText _ => (image_count, result_item)
  end.

(** Body of [for item in content]. *)
Definition visit_item (keep_recent : Z) (image_count : nat)
    (item : Block) : nat * Block :=
  match item with
  | BToolResult id (RList result_content) =>
      let '(c, result_content') :=
        for_each (visit_result_item keep_recent) image_count result_content in
      (c, BToolResult id (RList result_content'))
  | _ => (image_count, item)
  end.

(** Body of [for msg in reversed(messages)]. *)
Definition visit_msg (keep_recent : Z) (image_count : nat)
    (msg : Message) : nat * Message :=
  if String.eqb (role msg) "user" then
    match content msg with
    | CList items =>
        let '(c, items') := for_each (visit_item keep_recent) image_count items in
        (c, {| role := role msg; content := CList items' |})
    | CStr _ => (image_count, msg)
    end
  else (image_count, msg).

(** [TrainingAgent._truncate_old_images(messages, keep_recent)]: the turns
    are visited from the last to the first, the blocks of a turn and the
    entries of a tool result from the first to the last. *)
Definition _truncate_old_images (messages : list Message) (keep_recent : Z)
    : list Message :=
  reverse (for_each (visit_msg keep_recent) 0 (reverse messages)).2.

(** The history as [agentic_loop] builds it: the turn with the first
    screenshot, then only [messages.append] and the eviction. *)
Definition initial_message (initial_screenshot : string) : Message :=
  {| role := "user";
     content := CList
       [ BText "Here is the current state of the training platform. Please analyze it and begin navigating through the training.";
         BImage (png (Some initial_screenshot)) ] |}.

Inductive HistoryStep :=
| Append (msg : Message)
| Truncate (keep_recent : Z).

Definition history_step (messages : list Message) (s : HistoryStep) : list Message :=
  match s with
  | Append msg => messages ++ [msg]
  | Truncate keep_recent => _truncate_old_images messages keep_recent
  end.

Definition run_history (messages : list Message) (steps : list HistoryStep)
    : list Message :=
  foldl history_step messages steps.

(** The combined turn that carries the tool results of one reply. *)
Definition tool_results_turn (tool_results : list Block) : Message :=
  {| role := "user"; content := CList tool_results |}.

(** What [execute_computer_tool] returns for an action that ends with a
    screenshot. *)
Definition action_result (ack : string) (screenshot : option string)
    : ResultContent :=
  RList [RText ack; RImage (Some (png screenshot))].

(** One pass through the body of the [while] loop of [agentic_loop], by
    what happened in it: the call of the decision service failed, another
    exception was raised before or after the reply was appended, or the
    reply was processed, [results] being what the dispatch returned for
    its tool-use blocks, in their order. *)
Inductive Outcome :=
| api_error (e : string)
| error_before_reply (e : string)
| error_after_reply (reply : list Block) (e : string)
| replied (reply : list Block) (stop_reason : string) (results : list ResultContent).

Definition user_text (text : string) : Message :=
  {| role := "user"; content := CStr text |}.

Definition assistant (reply : list Block) : Message :=
  {| role := "assistant"; content := CList reply |}.

Definition tool_use_ids (reply : list Block) : list string :=
  omap (λ block, match block with BToolUse id _ => Some id | _ => None end) reply.

(** What one pass does to [messages]. *)
Definition iteration (o : Outcome) : list HistoryStep :=
  match o with
  | api_error e =>
      [ Append (user_text ("API error occurred: " +:+ e
                           +:+ ". Please take a screenshot and try again.")) ]
  | error_before_reply e =>
      [ Append (user_text ("Error occurred: " +:+ e
                           +:+ ". Please take a screenshot and try a different approach.")) ]
  | error_after_reply reply e =>
      [ Append (assistant reply);
        Append (user_text ("Error occurred: " +:+ e
                           +:+ ". Please take a screenshot and try a different approach.")) ]
  | replied reply stop_reason results =>
      Append (assistant reply) ::
      match tool_use_ids reply with
      | [] =>
          if String.eqb stop_reason "end_turn"
          then [ Append (user_text "Please continue with the training. Take a screenshot to see the current state and proceed with the next task.") ]
          else []
      | ids =>
          [ Append (tool_results_turn (zip_with BToolResult ids results));
            Truncate 3 ]
      end
  end.

(** The history that [agentic_loop] returns after the given passes; it
    returns at once, with no turn, when the first capture fails. *)
Definition agentic_loop (initial_screenshot : option string)
    (passes : list Outcome) : list Message :=
  match initial_screenshot with
  | Some shot =>
      if String.eqb shot "" then []
      else run_history [initial_message shot] (concat (iteration <$> passes))
  | None => []
  end.

End History.

(** ** The process and its environment *)

Module Runtime.

(** The exception classes that the modelled code can meet.  All of them
    derive from [Exception]. *)
Inductive Exc :=
| FileNotFoundError
| JSONDecodeError
| AttributeError
| TypeError
| OSError.

(** What [json.load] builds and [json.dump] takes. *)
Inductive json :=
| JNull
| JBool (b : bool)
| JInt (z : Z)
| JStr (s : string)
| JArr (l : list json)
| JObj (fields : list (string * json)).

(** The backing file, seen through [json.load]: absent, not a JSON text,
    or the text of a document.  [json.dump] followed by [json.load] gives
    back the documents made of dictionaries with string keys, strings,
    integers, booleans and [None], which are the ones [save] writes. *)
Inductive File :=
| Missing
| Unparseable (text : string)
| Document (doc : json).

(** What becomes of an attempt to write the backing file: the file takes
    the document; [open] fails and the file stays as it is; or the file
    is opened, which empties it, and the writing fails on the way,
    leaving a text that is no document.  The two failures raise an
    [OSError]. *)
Inductive Write :=
| Written
| Refused
| Torn (text : string).

Inductive LogRecord :=
| Debug (msg : string)
| Info (msg : string)
| Warning (msg : string)
| Error (msg : string) (e : Exc).

Inductive UIEvent :=
| Click (x y : Z)
| Sleep (milliseconds : nat)
| Screencapture.

(** [training_agent/state.py], [ModuleProgress]; the annotations of the
    dataclass are read as the types of the fields. *)
Record ModuleProgress := {
  module_id : string;
  module_name : string;
  video_watched : bool;
  assessment_attempts : Z;
  assessment_passed : bool;
  questions_answered : Z;
  questions_correct : Z;
  last_attempt : option string
}.

Record Confusion := {
  c_timestamp : string;
  c_description : string;
  c_location : string;
  c_severity : string
}.

(** The objects of one run: the fields of [TrainingState] and of
    [TrainingAgent], and the environment they act on.  [wall_clock] and
    [screen] say what the n-th reading of the clock and the n-th capture
    of the screen return, and [disk] what becomes of a write of the
    backing file attempted after n readings of the clock (every [save]
    reads the clock before it writes, so no two writes meet the same
    answer). *)
Record World := {
  modules : gmap string ModuleProgress;
  current_module : option string;
  session_start : string;
  actions_cache : gmap string (Z * Z);
  confusion_log : list Confusion;
  scroll_count : Z;
  state_file : File;
  log : list LogRecord;
  ticks : nat;
  wall_clock : nat → string;
  ui_events : list UIEvent;
  captures : nat;
  screen : nat → option string;
  disk : nat → Write
}.

Definition with_modules (f : gmap string ModuleProgress → gmap string ModuleProgress)
    (w : World) : World :=
  {| modules := f (modules w); current_module := current_module w;
     session_start := session_start w; actions_cache := actions_cache w;
     confusion_log := confusion_log w; scroll_count := scroll_count w;
     state_file := state_file w; log := log w; ticks := ticks w;
     wall_clock := wall_clock w; ui_events := ui_events w;
     captures := captures w; screen := screen w;
     disk := disk w |}.

Definition with_session (cur : option string) (start : string) (w : World) : World :=
  {| modules := modules w; current_module := cur;
     session_start := start; actions_cache := actions_cache w;
     confusion_log := confusion_log w; scroll_count := scroll_count w;
     state_file := state_file w; log := log w; ticks := ticks w;
     wall_clock := wall_clock w; ui_events := ui_events w;
     captures := captures w; screen := screen w;
     disk := disk w |}.

Definition with_actions_cache (f : gmap string (Z * Z) → gmap string (Z * Z))
    (w : World) : World :=
  {| modules := modules w; current_module := current_module w;
     session_start := session_start w; actions_cache := f (actions_cache w);
     confusion_log := confusion_log w; scroll_count := scroll_count w;
     state_file := state_file w; log := log w; ticks := ticks w;
     wall_clock := wall_clock w; ui_events := ui_events w;
     captures := captures w; screen := screen w;
     disk := disk w |}.

Definition with_confusion_log (f : list Confusion → list Confusion)
    (w : World) : World :=
  {| modules := modules w; current_module := current_module w;
     session_start := session_start w; actions_cache := actions_cache w;
     confusion_log := f (confusion_log w); scroll_count := scroll_count w;
     state_file := state_file w; log := log w; ticks := ticks w;
     wall_clock := wall_clock w; ui_events := ui_events w;
     captures := captures w; screen := screen w;
     disk := disk w |}.

Definition with_state_file (file : File) (w : World) : World :=
  {| modules := modules w; current_module := current_module w;
     session_start := session_start w; actions_cache := actions_cache w;
     confusion_log := confusion_log w; scroll_count := scroll_count w;
     state_file := file; log := log w; ticks := ticks w;
     wall_clock := wall_clock w; ui_events := ui_events w;
     captures := captures w; screen := screen w;
     disk := disk w |}.

Definition with_log (f : list LogRecord → list LogRecord) (w : World) : World :=
  {| modules := modules w; current_module := current_module w;
     session_start := session_start w; actions_cache := actions_cache w;
     confusion_log := confusion_log w; scroll_count := scroll_count w;
     state_file := state_file w; log := f (log w); ticks := ticks w;
     wall_clock := wall_clock w; ui_events := ui_events w;
     captures := captures w; screen := screen w;
     disk := disk w |}.

Definition with_ticks (n : nat) (w : World) : World :=
  {| modules := modules w; current_module := current_module w;
     session_start := session_start w; actions_cache := actions_cache w;
     confusion_log := confusion_log w; scroll_count := scroll_count w;
     state_file := state_file w; log := log w; ticks := n;
     wall_clock := wall_clock w; ui_events := ui_events w;
     captures := captures w; screen := screen w;
     disk := disk w |}.

Definition with_ui_events (f : list UIEvent → list UIEvent) (w : World) : World :=
  {| modules := modules w; current_module := current_module w;
     session_start := session_start w; actions_cache := actions_cache w;
     confusion_log := confusion_log w; scroll_count := scroll_count w;
     state_file := state_file w; log := log w; ticks := ticks w;
     wall_clock := wall_clock w; ui_events := f (ui_events w);
     captures := captures w; screen := screen w;
     disk := disk w |}.


Definition with_captures (n : nat) (w : World) : World :=
  {| modules := modules w; current_module := current_module w;
     session_start := session_start w; actions_cache := actions_cache w;
     confusion_log := confusion_log w; scroll_count := scroll_count w;
     state_file := state_file w; log := log w; ticks := ticks w;
     wall_clock := wall_clock w; ui_events := ui_events w;
     captures := n; screen := screen w;
     disk := disk w |}.

(** Computations that read and change the world and either return a value
    or raise. *)
Definition M (A : Type) : Type := World → (Exc + A) * World.

Definition ret {A} (a : A) : M A := λ w, (inr a, w).

Definition bind {A B} (c : M A) (k : A → M B) : M B :=
  λ w, match c w with
       | (inr a, w') => k a w'
       | (inl e, w') => (inl e, w')
       end.

Definition raise {A} (e : Exc) : M A := λ w, (inl e, w).

(** [try: c except Exception as e: handler(e)]. *)
Definition try_except {A} (c : M A) (handler : Exc → M A) : M A :=
  λ w, match c w with
       | (inl e, w') => handler e w'
       | r => r
       end.

Definition gets {A} (f : World → A) : M A := λ w, (inr (f w), w).
Definition modify (f : World → World) : M unit := λ w, (inr tt, f w).
Definition lift {A} (r : Exc + A) : M A := λ w, (r, w).

#[global] Instance M_ret : MRet M := @ret.
#[global] Instance M_bind : MBind M := λ A B k c, bind c k.

(** [datetime.now().isoformat()] *)
Definition datetime_now : M string :=
  n ← gets ticks;
  clock ← gets wall_clock;
  modify (with_ticks (S n));;
  mret (clock n).

Definition logger (r : LogRecord) : M unit := modify (with_log (λ l : list LogRecord, (l ++ [r])%list)).

(** [with open(STATE_FILE, 'r') as f: json.load(f)] *)
Definition read_json : M json :=
  file ← gets state_file;
  match file with
  | Missing => raise FileNotFoundError
  | Unparseable _ => raise JSONDecodeError
  | Document doc => mret doc
  end.

(** [with open(STATE_FILE, 'w') as f: json.dump(data, f, indent=2)]: the
    write can fail, at [open] or later. *)
Definition write_json (data : json) : M unit :=
  n ← gets ticks;
  answers ← gets disk;
  match answers n with
  | Written => modify (with_state_file (Document data))
  | Refused => raise OSError
  | Torn text => modify (with_state_file (Unparseable text));; raise OSError
  end.

End Runtime.

(** ** Progress store: [training_agent/state.py] *)

Module State.
Import Runtime.

#[global] Instance result_ret : MRet (sum Exc) := λ A a, inr a.
#[global] Instance result_bind : MBind (sum Exc) := λ A B k r,
  match r with
  | inr a => k a
  | inl e => inl e
  end.

Definition nl : string := String (Ascii.ascii_of_nat 10) "".

(** Truth value of a [str], and [a or b] on strings. *)
Definition truthy (s : string) : bool := negb (String.eqb s "").
Definition or_else (a b : string) : string := if truthy a then a else b.

(** [ModuleProgress(module_id=..., module_name=...)] with the defaults of
    the dataclass. *)
Definition new_module (id name : string) : ModuleProgress :=
  {| module_id := id; module_name := name; video_watched := false;
     assessment_attempts := 0; assessment_passed := false;
     questions_answered := 0; questions_correct := 0; last_attempt := None |}.

Definition set_module_name (name : string) (p : ModuleProgress) : ModuleProgress :=
  {| module_id := module_id p; module_name := name;
     video_watched := video_watched p;
     assessment_attempts := assessment_attempts p;
     assessment_passed := assessment_passed p;
     questions_answered := questions_answered p;
     questions_correct := questions_correct p;
     last_attempt := last_attempt p |}.

Definition set_video_watched (b : bool) (p : ModuleProgress) : ModuleProgress :=
  {| module_id := module_id p; module_name := module_name p;
     video_watched := b;
     assessment_attempts := assessment_attempts p;
     assessment_passed := assessment_passed p;
     questions_answered := questions_answered p;
     questions_correct := questions_correct p;
     last_attempt := last_attempt p |}.

(** The five assignments of [record_assessment_attempt]. *)
Definition set_attempt (passed : bool) (questions_total questions_correct' : Z)
    (now : string) (p : ModuleProgress) : ModuleProgress :=
  {| module_id := module_id p; module_name := module_name p;
     video_watched := video_watched p;
     assessment_attempts := assessment_attempts p + 1;
     assessment_passed := passed;
     questions_answered := questions_total;
     questions_correct := questions_correct';
     last_attempt := Some now |}.

(** [ModuleProgress.to_dict]: [asdict(self)], the fields in the order of
    their declaration. *)
Definition to_dict (p : ModuleProgress) : json :=
  JObj [ ("module_id", JStr (module_id p));
         ("module_name", JStr (module_name p));
         ("video_watched", JBool (video_watched p));
         ("assessment_attempts", JInt (assessment_attempts p));
         ("assessment_passed", JBool (assessment_passed p));
         ("questions_answered", JInt (questions_answered p));
         ("questions_correct", JInt (questions_correct p));
         ("last_attempt", match last_attempt p with
                          | Some t => JStr t
                          | None => JNull
                          end) ].

Definition field_names : list string :=
  [ "module_id"; "module_name"; "video_watched"; "assessment_attempts";
    "assessment_passed"; "questions_answered"; "questions_correct";
    "last_attempt" ].

(** [d.get(key)] on a dictionary read from JSON (its keys are distinct). *)
Fixpoint dict_get (d : list (string * json)) (key : string) : option json :=
  match d with
  | [] => None
  | (k, v) :: d' => if String.eqb k key then Some v else dict_get d' key
  end.

(** Reading a stored value at the type of its field.  The dataclass does
    not check its arguments: the code loads a record whose value is of
    another JSON type, which has no counterpart in the typed
    [ModuleProgress]; here such a record is refused with a [TypeError].
    The model departs from the code on such files only, which no [save]
    writes. *)
Definition as_str (v : json) : Exc + string :=
  match v with JStr s => inr s | _ => inl TypeError end.
Definition as_bool (v : json) : Exc + bool :=
  match v with JBool b => inr b | _ => inl TypeError end.
Definition as_int (v : json) : Exc + Z :=
  match v with JInt z => inr z | _ => inl TypeError end.
Definition as_optional_str (v : json) : Exc + option string :=
  match v with JStr s => inr (Some s) | JNull => inr None | _ => inl TypeError end.

(** One keyword argument of the constructor: taken from the dictionary,
    or its default; a field without default must be given. *)
Definition keyword {T : Type} (kw : list (string * json)) (name : string)
    (conv : json → Exc + T) (default : option T) : Exc + T :=
  match dict_get kw name with
  | Some v => conv v
  | None => match default with
            | Some d => inr d
            | None => inl TypeError
            end
  end.

(** [ModuleProgress.from_dict]: the constructor called with the entries
    of [data] as keyword arguments.  [data] must be a mapping and every
    key the name of a field. *)
Definition from_dict (data : json) : Exc + ModuleProgress :=
  match data with
  | JObj kw =>
      if forallb (λ k, bool_decide (k ∈ field_names)) kw.*1 then
        id ← keyword kw "module_id" as_str None;
        name ← keyword kw "module_name" as_str None;
        watched ← keyword kw "video_watched" as_bool (Some false);
        attempts ← keyword kw "assessment_attempts" as_int (Some 0%Z);
        passed ← keyword kw "assessment_passed" as_bool (Some false);
        answered ← keyword kw "questions_answered" as_int (Some 0%Z);
        correct ← keyword kw "questions_correct" as_int (Some 0%Z);
        last ← keyword kw "last_attempt" as_optional_str (Some None);
        mret {| module_id := id; module_name := name; video_watched := watched;
                assessment_attempts := attempts; assessment_passed := passed;
                questions_answered := answered; questions_correct := correct;
                last_attempt := last |}
      else inl TypeError
  | _ => inl TypeError
  end.

(** [d.get] and [d.items] exist on dictionaries only. *)
Definition as_dict (v : json) : Exc + list (string * json) :=
  match v with JObj d => inr d | _ => inl AttributeError end.

(** [{k: ModuleProgress.from_dict(v) for k, v in items}] *)
Fixpoint modules_of_items (items : list (string * json))
    (acc : gmap string ModuleProgress) : Exc + gmap string ModuleProgress :=
  match items with
  | [] => inr acc
  | (k, v) :: items' =>
      match from_dict v with
      | inr p => modules_of_items items' (<[k := p]> acc)
      | inl e => inl e
      end
  end.

(** [TrainingState._load] *)
Definition _load : M unit :=
  try_except
    (data ← read_json;
     d ← lift (as_dict data);
     items ← lift (match dict_get d "modules" with
                   | Some v => as_dict v
                   | None => inr []
                   end);
     ms ← lift (modules_of_items items ∅);
     modify (with_modules (λ _, ms));;
     logger (Info ("Loaded progress for " +:+ pretty (size ms) +:+ " modules")))
    (λ e, match e with
          | FileNotFoundError =>
              logger (Info "No previous progress found, starting fresh")
          | _ => logger (Error "Error loading state: " e)
          end).

(** [TrainingState.__init__] *)
Definition __init__ : M unit :=
  modify (with_modules (λ _, ∅));;
  now ← datetime_now;
  modify (with_session None now);;
  _load.

(** The document that [save] writes. *)
Definition document (ms : gmap string ModuleProgress) (now : string) : json :=
  JObj [ ("modules", JObj (map_to_list (to_dict <$> ms)));
         ("last_saved", JStr now) ].

(** [TrainingState.save] *)
Definition save : M unit :=
  try_except
    (ms ← gets modules;
     now ← datetime_now;
     write_json (document ms now);;
     logger (Debug "State saved"))
    (λ e, logger (Error "Error saving state: " e)).

(** [TrainingState.get_or_create_module] *)
Definition get_or_create_module (id name : string) : M ModuleProgress :=
  ms ← gets modules;
  match ms !! id with
  | None =>
      let p := new_module id (or_else name id) in
      modify (with_modules <[id := p]>);;
      save;;
      mret p
  | Some p =>
      if truthy name && negb (truthy (module_name p)) then
        let p' := set_module_name name p in
        modify (with_modules <[id := p']>);;
        save;;
        mret p'
      else mret p
  end.

(** [TrainingState.mark_video_watched]; [module] is the object stored
    under [id], so the assignment changes the store. *)
Definition mark_video_watched (id : string) : M unit :=
  get_or_create_module id "";;
  modify (with_modules (alter (set_video_watched true) id));;
  save;;
  logger (Info ("Video watched for module: " +:+ id)).

(** [TrainingState.record_assessment_attempt] *)
Definition record_assessment_attempt (id : string) (passed : bool)
    (questions_total questions_correct' : Z) : M unit :=
  get_or_create_module id "";;
  now ← datetime_now;
  modify (with_modules
            (alter (set_attempt passed questions_total questions_correct' now) id));;
  save;;
  logger (Info ("Assessment attempt for " +:+ id +:+ ": "
                +:+ (if passed then "PASSED" else "FAILED")
                +:+ " (" +:+ pretty questions_correct' +:+ "/"
                +:+ pretty questions_total +:+ ")")).

(** An entry of the list that [get_failed_assessments] returns: the
    dictionary with the keys ['id'], ['name'] and ['attempts']. *)
Record Failed := { failed_id : string; failed_name : string; failed_attempts : Z }.

(** [TrainingState.get_failed_assessments].  The dictionary of the code
    gives its items in the order of their insertion and the map in the
    order of its keys: the list is modelled up to the order of its
    entries, and the theorems speak of membership only. *)
Definition get_failed_assessments (w : World) : list Failed :=
  (λ kp : string * ModuleProgress,
     {| failed_id := kp.1; failed_name := module_name kp.2;
        failed_attempts := assessment_attempts kp.2 |})
  <$> filter (λ kp : string * ModuleProgress,
                video_watched kp.2 && negb (assessment_passed kp.2))
             (map_to_list (modules w)).

(** The status of a module in [get_summary]. *)
Definition status (progress : ModuleProgress) : string :=
  if assessment_passed progress then "PASSED"
  else if video_watched progress then "IN PROGRESS"
  else "NOT STARTED".

Definition count_if (f : ModuleProgress → bool) (ms : list ModuleProgress) : nat :=
  length (filter (λ m, f m) ms).

(** [TrainingState.get_summary]; the modules are listed in the order in
    which the map enumerates them, which is the order of the keys and not
    the order of insertion of the code. *)
Definition get_summary (w : World) : string :=
  let items := map_to_list (modules w) in
  let total := length items in
  if Nat.eqb total 0 then
    "Training Progress Summary:" +:+ nl +:+ "  No modules tracked yet."
  else
    let videos_watched := count_if video_watched items.*2 in
    let assessments_passed := count_if assessment_passed items.*2 in
    let total_attempts := foldr Z.add 0%Z (assessment_attempts <$> items.*2) in
    "Training Progress Summary:" +:+ nl
    +:+ "  Modules tracked: " +:+ pretty total +:+ nl
    +:+ "  Videos watched: " +:+ pretty videos_watched +:+ nl
    +:+ "  Assessments passed: " +:+ pretty assessments_passed +:+ "/"
    +:+ pretty total +:+ nl
    +:+ "  Total assessment attempts: " +:+ pretty total_attempts +:+ nl
    +:+ "  Session started: " +:+ session_start w
    +:+ nl +:+ nl +:+ "  Module Details:"
    +:+ foldr String.append ""
          ((λ progress : ModuleProgress,
              nl +:+ "    - " +:+ module_name progress +:+ ": " +:+ status progress
              +:+ (if (0 <? assessment_attempts progress)%Z
                   then " (" +:+ pretty (questions_correct progress) +:+ "/"
                        +:+ pretty (questions_answered progress)
                        +:+ " on attempt "
                        +:+ pretty (assessment_attempts progress) +:+ ")"
                   else "")) <$> items.*2).

End State.

(** ** Bookkeeping dispatcher: [training_agent/agent.py] *)

Module Agent.
Import Runtime State.

(** The parameter record of a bookkeeping invocation, typed as the input
    schemas of [training_agent/tools.py]; an absent key is [None]. *)
Record ToolInput := {
  in_module_id : option string;
  in_module_name : option string;
  in_passed : option bool;
  in_questions_total : option Z;
  in_questions_correct : option Z;
  in_action_name : option string;
  in_x : option Z;
  in_y : option Z;
  in_description : option string;
  in_location : option string;
  in_severity : option string
}.

Definition no_input : ToolInput :=
  {| in_module_id := None; in_module_name := None; in_passed := None;
     in_questions_total := None; in_questions_correct := None;
     in_action_name := None; in_x := None; in_y := None;
     in_description := None; in_location := None; in_severity := None |}.

(** [tool_input.get(key, d)] *)
Definition get {T : Type} (field : option T) (d : T) : T := default d field.

(** [pyautogui.click(x, y)] and [time.sleep]. *)
Definition click (x y : Z) : M unit :=
  modify (with_ui_events (λ l : list UIEvent, (l ++ [Click x y])%list)).
Definition sleep (milliseconds : nat) : M unit :=
  modify (with_ui_events (λ l : list UIEvent, (l ++ [Sleep milliseconds])%list)).

(** [take_screenshot()]: the encoded capture, or [None] when it fails. *)
Definition take_screenshot : M (option string) :=
  n ← gets captures;
  scr ← gets screen;
  modify (with_captures (S n));;
  modify (with_ui_events (λ l : list UIEvent, (l ++ [Screencapture])%list));;
  mret (scr n).

(** [str(list(keys))], for names without quotes or escapes; the keys
    come in the order of the map, not in the order of insertion. *)
Definition repr_keys (keys : list string) : string :=
  "[" +:+ foldr (λ k rest, "'" +:+ k +:+ "'"
                   +:+ (if String.eqb rest "" then "" else ", " +:+ rest))
                "" keys +:+ "]".

Definition coordinates (x y : Z) : string :=
  "(" +:+ pretty x +:+ ", " +:+ pretty y +:+ ")".

(** [TrainingAgent._execute_custom_tool] *)
Definition _execute_custom_tool (tool_name : string) (tool_input : ToolInput)
    : M string :=
  if String.eqb tool_name "mark_video_watched" then
    let module_id := get (in_module_id tool_input) "unknown" in
    let module_name := get (in_module_name tool_input) module_id in
    get_or_create_module module_id module_name;;
    mark_video_watched module_id;;
    mret ("Video marked as watched for module: " +:+ module_name)
  else if String.eqb tool_name "record_assessment_result" then
    let module_id := get (in_module_id tool_input) "unknown" in
    let passed := get (in_passed tool_input) false in
    let questions_total := get (in_questions_total tool_input) 0%Z in
    let questions_correct := get (in_questions_correct tool_input) 0%Z in
    record_assessment_attempt module_id passed questions_total questions_correct;;
    mret ("Assessment result recorded: "
          +:+ (if passed then "PASSED" else "FAILED")
          +:+ " (" +:+ pretty questions_correct +:+ "/"
          +:+ pretty questions_total +:+ ")")
  else if String.eqb tool_name "get_progress" then
    gets get_summary
  else if String.eqb tool_name "get_failed_assessments" then
    failed ← gets get_failed_assessments;
    match failed with
    | [] => mret "No failed assessments. All completed assessments have passed!"
    | _ =>
        mret (foldl (λ result item,
                       result +:+ "  - " +:+ failed_name item
                       +:+ " (ID: " +:+ failed_id item +:+ ", attempts: "
                       +:+ pretty (failed_attempts item) +:+ ")" +:+ nl)
                    ("Failed assessments that need retry:" +:+ nl) failed)
    end
  else if String.eqb tool_name "cache_action" then
    let action_name := get (in_action_name tool_input) "" in
    let x := get (in_x tool_input) 0%Z in
    let y := get (in_y tool_input) 0%Z in
    if truthy action_name then
      modify (with_actions_cache <[action_name := (x, y)]>);;
      mret ("Cached location '" +:+ action_name +:+ "' at " +:+ coordinates x y)
    else mret "Error: action_name is required"
  else if String.eqb tool_name "use_cached_action" then
    let action_name := get (in_action_name tool_input) "" in
    cache ← gets actions_cache;
    match cache !! action_name with
    | Some (x, y) =>
        click x y;;
        sleep 500;;
        screenshot_b64 ← take_screenshot;
        mret ("Clicked cached location '" +:+ action_name +:+ "' at "
              +:+ coordinates x y +:+ ". Screenshot taken.")
    | None =>
        mret ("Error: No cached action named '" +:+ action_name
              +:+ "'. Available: " +:+ repr_keys (map_to_list cache).*1)
    end
  else if String.eqb tool_name "list_cached_actions" then
    cache ← gets actions_cache;
    match map_to_list cache with
    | [] => mret "No cached actions yet."
    | items =>
        mret (foldl (λ result (item : string * (Z * Z)),
                       result +:+ "  - " +:+ item.1 +:+ ": "
                       +:+ coordinates item.2.1 item.2.2 +:+ nl)
                    ("Cached UI locations:" +:+ nl) items)
    end
  else if String.eqb tool_name "note_confusion" then
    let description := get (in_description tool_input) "Unknown issue" in
    let location := get (in_location tool_input) "Unknown location" in
    let severity := get (in_severity tool_input) "moderate" in
    now ← datetime_now;
    modify (with_confusion_log
              (λ l : list Confusion,
                 (l ++ [ {| c_timestamp := now; c_description := description;
                            c_location := location; c_severity := severity |} ])%list));;
    logger (Warning ("CONFUSION LOGGED [" +:+ severity +:+ "]: " +:+ description
                     +:+ " at " +:+ location));;
    mret ("Confusion noted: " +:+ description)
  else mret ("Unknown tool: " +:+ tool_name).

(** The tool-result block that [agentic_loop] builds for a tool-use block
    that does not name the [computer] tool. *)
Definition custom_tool_result (block_id block_name : string)
    (block_input : ToolInput) : M History.Block :=
  result_text ← _execute_custom_tool block_name block_input;
  mret (History.BToolResult block_id (History.RList [History.RText result_text])).

End Agent.

(** ** Vocabulary of the statements *)

Module Spec.
Import History Runtime State Agent.

(** *** Eviction *)

(** A loop body is settled when a second visit, started from a count that
    is not larger, changes nothing and counts no more than the first. *)
Definition settled {A : Type} (body : nat → A → nat * A) : Prop :=
  ∀ (c c' : nat) x, (c' ≤ c)%nat →
    (body c' (body c x).2).2 = (body c x).2 ∧
    ((body c' (body c x).2).1 ≤ (body c x).1)%nat.

(** What eviction may do to an entry of a tool result: keep it, or turn an
    image into the placeholder notice. *)
Definition evicted_item (old new : ResultItem) : Prop :=
  new = old ∨ ((∃ source, old = RImage source) ∧ new = RText placeholder).

(** What it may do to a block: only the entries of a tool result that
    holds a list can change. *)
Definition evicted_block (old new : Block) : Prop :=
  match old with
  | BToolResult id (RList entries) =>
      ∃ entries', new = BToolResult id (RList entries') ∧
                  Forall2 evicted_item entries entries'
  | _ => new = old
  end.

(** What it may do to a turn: only the blocks of a turn of role ["user"]
    whose content is a list can change. *)
Definition evicted_msg (old new : Message) : Prop :=
  role new = role old ∧
  match content old with
  | CList items =>
      if String.eqb (role old) "user"
      then ∃ items', content new = CList items' ∧
                     Forall2 evicted_block items items'
      else new = old
  | CStr _ => new = old
  end.

(** Number of images inside the tool results that the eviction visits. *)
Definition is_image (entry : ResultItem) : bool :=
  match entry with RImage _ => true | RText _ => false end.

Definition images_of_item (entry : ResultItem) : nat :=
  if is_image entry then 1 else 0.

Definition images_of_block (b : Block) : nat :=
  match b with
  | BToolResult _ (RList entries) => sum_list_with images_of_item entries
  | _ => 0
  end.

Definition images_of_msg (m : Message) : nat :=
  if String.eqb (role m) "user" then
    match content m with
    | CList items => sum_list_with images_of_block items
    | CStr _ => 0
    end
  else 0.

Definition images (messages : list Message) : nat :=
  sum_list_with images_of_msg messages.

(** A loop body counts with [weight] when it adds the weight of the
    element to the count and leaves in the element as many images as the
    retention count still allows. *)
Definition counts_with {A : Type} (keep_recent : Z) (weight : A → nat)
    (body : nat → A → nat * A) : Prop :=
  ∀ (c : nat) x,
    (body c x).1 = (c + weight x)%nat ∧
    weight (body c x).2
    = (weight x `min` Z.to_nat (keep_recent - Z.of_nat c))%nat.

(** A reply with four clicks and the turn that answers it: the results
    are in the order in which the clicks were made, [shot4] is the last
    capture of the screen. *)
Definition click_result (id ack shot : string) : Block :=
  BToolResult id (action_result ack (Some shot)).

Definition four_clicks : list Message :=
  [ initial_message "shot0";
    assistant [ BToolUse "t1" "computer"; BToolUse "t2" "computer";
                BToolUse "t3" "computer"; BToolUse "t4" "computer" ];
    tool_results_turn
      [ click_result "t1" "Clicked (10, 10) - RED MARKER shows where click landed" "shot1";
        click_result "t2" "Clicked (20, 20) - RED MARKER shows where click landed" "shot2";
        click_result "t3" "Clicked (30, 30) - RED MARKER shows where click landed" "shot3";
        click_result "t4" "Clicked (40, 40) - RED MARKER shows where click landed" "shot4" ] ].

(** *** Progress store *)

(** The world after a computation, and whether it raised. *)
Definition exec {A : Type} (c : M A) (w : World) : World := (c w).2.
Definition returns {A : Type} (c : M A) (w : World) : Prop :=
  ∃ a, (c w).1 = inr a.

(** The bookkeeping calls on the store. *)
Inductive Call :=
| GetOrCreate (id name : string)
| MarkWatched (id : string)
| RecordAttempt (id : string) (passed : bool) (questions_total questions_correct : Z).

Definition call (c : Call) : M unit :=
  match c with
  | GetOrCreate id name => get_or_create_module id name;; mret tt
  | MarkWatched id => mark_video_watched id
  | RecordAttempt id passed total correct =>
      record_assessment_attempt id passed total correct
  end.

Definition run_calls (w : World) (calls : list Call) : World :=
  foldl (λ w c, exec (call c) w) w calls.


(** The attempts recorded for a module so far; a module that the store
    does not hold has none. *)
Definition attempts_of (w : World) (id : string) : Z :=
  default 0%Z (assessment_attempts <$> modules w !! id).

(** What a bookkeeping call does to the record of a module that the store
    holds already. *)
Definition after_call (id : string) (c : Call) (p p' : ModuleProgress) : Prop :=
  match c with
  | GetOrCreate id' name =>
      p' = if decide (id' = id ∧ module_name p = "") then set_module_name name p else p
  | MarkWatched id' =>
      p' = if decide (id' = id) then set_video_watched true p else p
  | RecordAttempt id' passed total correct =>
      if decide (id' = id)
      then ∃ now, p' = set_attempt passed total correct now p
      else p' = p
  end.

(** Whether a call records an attempt on the module [id]. *)
Definition records_on (id : string) (c : Call) : bool :=
  match c with
  | RecordAttempt id' _ _ _ => bool_decide (id' = id)
  | _ => false
  end.

(** The backing file is the one the last [save] wrote. *)
Definition persisted (w : World) : Prop :=
  ∃ now, state_file w = Document (document (modules w) now).

(** The disk takes every write. *)
Definition reliable (w : World) : Prop := ∀ n, disk w n = Written.

(** A [save] started in [w] completes: it reaches its last line, the
    record that the state is saved, which it does when the write of the
    file has not raised. *)
Definition save_completes (w : World) : Prop :=
  last (log (exec save w)) = Some (Debug "State saved").

(** A stored record stands for a module when it is a dictionary that
    gives each of the eight fields of the module its value. *)
Definition stands_for (v : json) (p : ModuleProgress) : Prop :=
  ∃ d, v = JObj d
       ∧ dict_get d "module_id" = Some (JStr (module_id p))
       ∧ dict_get d "module_name" = Some (JStr (module_name p))
       ∧ dict_get d "video_watched" = Some (JBool (video_watched p))
       ∧ dict_get d "assessment_attempts" = Some (JInt (assessment_attempts p))
       ∧ dict_get d "assessment_passed" = Some (JBool (assessment_passed p))
       ∧ dict_get d "questions_answered" = Some (JInt (questions_answered p))
       ∧ dict_get d "questions_correct" = Some (JInt (questions_correct p))
       ∧ dict_get d "last_attempt"
         = Some (match last_attempt p with Some t => JStr t | None => JNull end).

(** The entire store is on file: the backing file is a document whose
    ["modules"] has, under the identifier of every module in memory, a
    record that stands for it, and nothing under any other key. *)
Definition on_file (w : World) : Prop :=
  ∃ d items,
    state_file w = Document (JObj d)
    ∧ dict_get d "modules" = Some (JObj items)
    ∧ (∀ id p, modules w !! id = Some p →
         ∃ v, dict_get items id = Some v ∧ stands_for v p)
    ∧ (∀ id, modules w !! id = None → dict_get items id = None).

(** A start of the process: nothing in memory, a clock that counts, a
    screen that always gives a capture and a disk that takes every
    write. *)
Definition boot (file : File) : World :=
  {| modules := ∅; current_module := None; session_start := "";
     actions_cache := ∅; confusion_log := []; scroll_count := 0;
     state_file := file; log := []; ticks := 0;
     wall_clock := λ n, "t" +:+ pretty n;
     ui_events := []; captures := 0;
     screen := λ n, Some ("shot" +:+ pretty n);
     disk := λ _, Written |}.

End Spec.

(** ** The other query of the store: [training_agent/state.py] *)

Module Reports.
Import Runtime State.

(** An entry of the list that [get_incomplete_modules] returns: the
    dictionary with the keys ['id'], ['name'], ['video_watched'] and
    ['attempts']. *)
Record Incomplete := {
  incomplete_id : string;
  incomplete_name : string;
  incomplete_video_watched : bool;
  incomplete_attempts : Z
}.

(** [TrainingState.get_incomplete_modules], up to the order of the
    entries as for [get_failed_assessments]. *)
Definition get_incomplete_modules (w : World) : list Incomplete :=
  (λ kp : string * ModuleProgress,
     {| incomplete_id := kp.1; incomplete_name := module_name kp.2;
        incomplete_video_watched := video_watched kp.2;
        incomplete_attempts := assessment_attempts kp.2 |})
  <$> filter (λ kp : string * ModuleProgress, negb (assessment_passed kp.2))
             (map_to_list (modules w)).

End Reports.

(** ** The tool catalogue: [training_agent/tools.py] *)

Module Tools.

(** A property of an input schema. *)
Record Property := {
  property_name : string;
  property_type : string;
  property_description : option string;
  property_enum : list string
}.

(** A tool definition: the [computer] tool with the size of the screen, or
    a tool with a name, a description and the schema of its input. *)
Inductive Tool :=
| Computer (type name : string) (display_width_px display_height_px display_number : Z)
| Custom (name description : string) (properties : list Property)
         (required : list string).

Definition tool_name (t : Tool) : string :=
  match t with
  | Computer _ name _ _ _ => name
  | Custom name _ _ _ => name
  end.

Definition prop (name type description : string) : Property :=
  {| property_name := name; property_type := type;
     property_description := Some description; property_enum := [] |}.

(** [get_tools()], [w] and [h] being what [get_screen_size()] returns. *)
Definition get_tools (w h : Z) : list Tool :=
  [ Computer "computer_20250124" "computer" w h 1;
    Custom "mark_video_watched"
      "Mark training video as watched after it finishes playing."
      [ prop "module_id" "string" "Module identifier";
        prop "module_name" "string" "Module name" ]
      [ "module_id" ];
    Custom "record_assessment_result"
      "Record assessment result after seeing the results screen."
      [ prop "module_id" "string" "Module identifier";
        prop "passed" "boolean" "Whether passed";
        prop "questions_total" "integer" "Total questions";
        prop "questions_correct" "integer" "Correct answers" ]
      [ "module_id"; "passed" ];
    Custom "get_progress" "Get training progress summary." [] [];
    Custom "get_failed_assessments" "Get list of failed assessments to retry." [] [];
    Custom "cache_action" "Cache UI element coordinates for reuse."
      [ prop "action_name" "string" "Name for cached location";
        prop "x" "integer" "X coordinate";
        prop "y" "integer" "Y coordinate" ]
      [ "action_name"; "x"; "y" ];
    Custom "use_cached_action" "Click a previously cached location."
      [ prop "action_name" "string" "Cached action name" ]
      [ "action_name" ];
    Custom "list_cached_actions" "List all cached UI locations." [] [];
    Custom "note_confusion" "Log confusing UI or unclear instructions."
      [ prop "description" "string" "What was confusing";
        prop "location" "string" "Where it occurred";
        {| property_name := "severity"; property_type := "string";
           property_description := None;
           property_enum := [ "minor"; "moderate"; "blocking" ] |} ]
      [ "description" ] ].

End Tools.

(** ** More vocabulary *)

Module Laws.
Import History Runtime State Agent Spec Reports Tools.

(** The module that a bookkeeping call names. *)
Definition target (c : Call) : string :=
  match c with
  | GetOrCreate id _ => id
  | MarkWatched id => id
  | RecordAttempt id _ _ _ => id
  end.

(** Every record is stored under its own identifier. *)
Definition well_keyed (ms : gmap string ModuleProgress) : Prop :=
  ∀ k p, ms !! k = Some p → module_id p = k.

(** How the record of a module may change over time: the identifier
    stays, a watched video stays watched, the attempts do not go down and
    a name that is not empty stays. *)
Definition grows (p p' : ModuleProgress) : Prop :=
  module_id p' = module_id p
  ∧ (video_watched p = true → video_watched p' = true)
  ∧ (assessment_attempts p ≤ assessment_attempts p')%Z
  ∧ (module_name p ≠ "" → module_name p' = module_name p).

(** A stored record that the constructor of [ModuleProgress] refuses
    whatever its values: not a dictionary, a key that is no field, or no
    [module_id] or [module_name]. *)
Definition malformed (v : json) : Prop :=
  match v with
  | JObj kw =>
      (∃ k, k ∈ kw.*1 ∧ k ∉ field_names)
      ∨ dict_get kw "module_id" = None
      ∨ dict_get kw "module_name" = None
  | _ => True
  end.

(** The names that [_execute_custom_tool] compares [tool_name] with. *)
Definition bookkeeping_tools : list string :=
  [ "mark_video_watched"; "record_assessment_result"; "get_progress";
    "get_failed_assessments"; "cache_action"; "use_cached_action";
    "list_cached_actions"; "note_confusion" ].

(** The first character of a text. *)
Definition first_char (s : string) : option Ascii.ascii :=
  match s with
  | String a _ => Some a
  | EmptyString => None
  end.

(** A process started on the file of [w]: nothing in memory but the
    environment of [w]. *)
Definition restart (w : World) : World :=
  exec State.__init__ (with_actions_cache (λ _, ∅) (with_confusion_log (λ _, []) w)).

(** An input that names an action, and one that also gives coordinates. *)
Definition action_input (name : option string) (x y : option Z) : ToolInput :=
  {| in_module_id := None; in_module_name := None; in_passed := None;
     in_questions_total := None; in_questions_correct := None;
     in_action_name := name; in_x := x; in_y := y;
     in_description := None; in_location := None; in_severity := None |}.

(** How the count of a second eviction follows the count of the first,
    which kept the images up to [keep_recent]: it is not larger, and it is
    the same as long as the first has replaced nothing. *)
Definition follows (keep_recent : Z) (c1 c2 : nat) : Prop :=
  (c2 ≤ c1)%nat ∧ ((Z.of_nat c1 ≤ keep_recent)%Z → c2 = c1).

(** [both] does in one visit what [first] and then [second] do. *)
Definition composes {A : Type} (keep_recent : Z)
    (first second both : nat → A → nat * A) : Prop :=
  ∀ (c1 c2 : nat) x, follows keep_recent c1 c2 →
    (both c1 x).1 = (first c1 x).1
    ∧ (both c1 x).2 = (second c2 (first c1 x).2).2
    ∧ follows keep_recent (first c1 x).1 (second c2 (first c1 x).2).1.

(** [body] started at the count [c0 + c] does what [body'] does started
    at [c], the counts being [c0] apart. *)
Definition shifted {A : Type} (c0 : nat) (body body' : nat → A → nat * A) : Prop :=
  ∀ (c : nat) x, body (c0 + c)%nat x = ((c0 + (body' c x).1)%nat, (body' c x).2).

(** The part of the world that the store operations do not touch: the
    action cache, the confusion log and the screen. *)
Definition same_agent (w w' : World) : Prop :=
  actions_cache w' = actions_cache w
  ∧ confusion_log w' = confusion_log w
  ∧ ui_events w' = ui_events w
  ∧ captures w' = captures w.

End Laws.

(** ** Screen and input devices: [training_agent/screenshot.py] and
    [training_agent/computer.py] *)

Module Desktop.
Import History.

(** The calls to [pyautogui] and [time.sleep] and the captures of the
    screen, in the order in which they are made.  [DragTo] is [moveTo]
    with a duration, [Capture] carries the marker drawn on the image. *)
Inductive Input :=
| MoveTo (x y : Z)
| DragTo (x y : Z)
| LeftClick (x y : Z)
| RightClick (x y : Z)
| DoubleClick (x y : Z)
| MouseDown
| MouseUp
| Write (text : string)
| Hotkey (keys : list string)
| Press (key : string)
| Scroll (clicks : Z)
| HScroll (clicks : Z)
| Pause (milliseconds : Z)
| Capture (marker : option (Z * Z)).

(** [logger.info] and [logger.error] of the two modules. *)
Inductive Note :=
| Noted (msg : string)
| Failed (msg : string).

(** The exceptions of the modelled calls, both of [time.sleep]: a
    negative length is a [ValueError], a length beyond what the
    interpreter can count an [OverflowError]. *)
Inductive Raised := ValueError | OverflowError.

(** The state of the two modules and of the devices: the inputs made so
    far, [_last_click], the number of captures taken, what the capture
    number n gives when the given marker is drawn on it ([None] when the
    capture fails), the digest of [hash_screenshot], and the log. *)
Record Screen := {
  inputs : list Input;
  last_click : option (Z * Z);
  shots : nat;
  display : nat → option (Z * Z) → option string;
  digest : string → string;
  notes : list Note
}.

Definition with_inputs (f : list Input → list Input) (s : Screen) : Screen :=
  {| inputs := f (inputs s); last_click := last_click s; shots := shots s;
     display := display s; digest := digest s; notes := notes s |}.

Definition with_last_click (c : option (Z * Z)) (s : Screen) : Screen :=
  {| inputs := inputs s; last_click := c; shots := shots s;
     display := display s; digest := digest s; notes := notes s |}.

Definition with_shots (n : nat) (s : Screen) : Screen :=
  {| inputs := inputs s; last_click := last_click s; shots := n;
     display := display s; digest := digest s; notes := notes s |}.

Definition with_notes (f : list Note → list Note) (s : Screen) : Screen :=
  {| inputs := inputs s; last_click := last_click s; shots := shots s;
     display := display s; digest := digest s; notes := f (notes s) |}.

Definition D (A : Type) : Type := Screen → (Raised + A) * Screen.

#[global] Instance D_ret : MRet D := λ A a s, (inr a, s).
#[global] Instance D_bind : MBind D := λ A B k c s,
  match c s with
  | (inr a, s') => k a s'
  | (inl e, s') => (inl e, s')
  end.

Definition reads {A : Type} (f : Screen → A) : D A := λ s, (inr (f s), s).
Definition changes (f : Screen → Screen) : D unit := λ s, (inr tt, f s).
Definition raises {A : Type} (e : Raised) : D A := λ s, (inl e, s).

Definition input (i : Input) : D unit :=
  changes (with_inputs (λ l : list Input, (l ++ [i])%list)).

Definition note (n : Note) : D unit :=
  changes (with_notes (λ l : list Note, (l ++ [n])%list)).

(** The interpreter counts the length of a sleep in nanoseconds, in a
    signed integer of 64 bits. *)
Definition fits (milliseconds : Z) : bool :=
  (-9223372036854775808 <=? milliseconds * 1000000)%Z
  && (milliseconds * 1000000 <=? 9223372036854775807)%Z.

(** [time.sleep(seconds)], the length given in milliseconds: the length
    is converted first, which fails when it does not fit, and its sign
    is looked at afterwards.  The operating system is taken to accept
    every length that the interpreter can count. *)
Definition sleep (milliseconds : Z) : D unit :=
  if negb (fits milliseconds) then raises OverflowError
  else if (milliseconds <? 0)%Z then raises ValueError
  else input (Pause milliseconds).

Definition point (x y : Z) : string :=
  "(" +:+ pretty x +:+ ", " +:+ pretty y +:+ ")".

(** [set_last_click] and [clear_last_click] *)
Definition set_last_click (x y : Z) : D unit :=
  changes (with_last_click (Some (x, y)));;
  note (Noted ("Recorded click at " +:+ point x y)).

Definition clear_last_click : D unit := changes (with_last_click None).

(** [take_screenshot(show_click_marker)]: the marker is drawn when it is
    asked for and a click is recorded.  A capture that fails is logged
    and gives [None]; the failure is taken to be the one of the capture
    command, before anything is drawn. *)
Definition take_screenshot (show_click_marker : bool) : D (option string) :=
  n ← reads shots;
  shown ← reads display;
  click ← reads last_click;
  let marker := if show_click_marker then click else None in
  changes (with_shots (S n));;
  input (Capture marker);;
  match shown n marker with
  | Some data =>
      match marker with
      | Some (x, y) => note (Noted ("Drew click marker at " +:+ point x y))
      | None => mret tt
      end;;
      mret (Some data)
  | None => note (Failed "Screenshot failed: ");; mret None
  end.

(** [hash_screenshot(b) if b else None] *)
Definition hash_of (s : Screen) (capture : option string) : option string :=
  match capture with
  | Some data => if String.eqb data "" then None else Some (digest s data)
  | None => None
  end.

(** The input of the [computer] tool; an absent key is [None], and
    [duration] is in whole seconds. *)
Record ComputerInput := {
  action : option string;
  coordinate : option (Z * Z);
  start_coordinate : option (Z * Z);
  text : option string;
  scroll_direction : option string;
  scroll_amount : option Z;
  duration : option Z
}.

Definition image (screenshot : option string) : ResultItem :=
  RImage (Some (png screenshot)).

(** [key.split('+')] and ['+' in key] *)
Fixpoint split_on (sep : Ascii.ascii) (s : string) : list string :=
  match s with
  | EmptyString => [EmptyString]
  | String c s' =>
      if Ascii.eqb c sep then EmptyString :: split_on sep s'
      else match split_on sep s' with
           | part :: parts => String c part :: parts
           | [] => [String c EmptyString]
           end
  end.

Fixpoint contains (sep : Ascii.ascii) (s : string) : bool :=
  match s with
  | EmptyString => false
  | String c s' => Ascii.eqb c sep || contains sep s'
  end.

Definition plus : Ascii.ascii := Ascii.ascii_of_nat 43.

(** [action == name], the action being [None] when the key is absent. *)
Definition named (action : option string) (name : string) : bool :=
  match action with
  | Some a => String.eqb a name
  | None => false
  end.

(** [execute_computer_tool(tool_input, scroll_counter)]: the content of
    the tool result and the count of scrolls afterwards.  Slices of a text
    are taken by characters. *)
Definition execute_computer_tool (tool_input : ComputerInput) (scroll_counter : Z)
    : D (list ResultItem * Z) :=
  let action := action tool_input in
  if named action "screenshot" then
      screenshot ← take_screenshot true;
      match screenshot with
      | Some data =>
          if String.eqb data "" then mret ([RText "Screenshot failed"], scroll_counter)
          else mret ([image screenshot], scroll_counter)
      | None => mret ([RText "Screenshot failed"], scroll_counter)
      end
  else if named action "mouse_move" then
      let '(x, y) := default (0, 0)%Z (coordinate tool_input) in
      input (MoveTo x y);;
      mret ([RText ("Moved to " +:+ point x y)], scroll_counter)
  else if named action "left_click" then
      let '(x, y) := default (0, 0)%Z (coordinate tool_input) in
      note (Noted ("CLICK at " +:+ point x y));;
      set_last_click x y;;
      input (LeftClick x y);;
      sleep 500;;
      screenshot ← take_screenshot true;
      mret ([ RText ("Clicked " +:+ point x y
                     +:+ " - RED MARKER shows where click landed");
              image screenshot ], scroll_counter)
  else if named action "right_click" then
      let '(x, y) := default (0, 0)%Z (coordinate tool_input) in
      set_last_click x y;;
      input (RightClick x y);;
      sleep 500;;
      screenshot ← take_screenshot true;
      mret ([ RText ("Right clicked " +:+ point x y
                     +:+ " - RED MARKER shows where click landed");
              image screenshot ], scroll_counter)
  else if named action "double_click" then
      let '(x, y) := default (0, 0)%Z (coordinate tool_input) in
      set_last_click x y;;
      input (DoubleClick x y);;
      sleep 500;;
      screenshot ← take_screenshot true;
      mret ([ RText ("Double clicked " +:+ point x y
                     +:+ " - RED MARKER shows where click landed");
              image screenshot ], scroll_counter)
  else if named action "left_click_drag" then
      let start := default (0, 0)%Z (start_coordinate tool_input) in
      let end_ := default (0, 0)%Z (coordinate tool_input) in
      set_last_click end_.1 end_.2;;
      input (MoveTo start.1 start.2);;
      sleep 100;;
      input MouseDown;;
      input (DragTo end_.1 end_.2);;
      input MouseUp;;
      sleep 500;;
      screenshot ← take_screenshot true;
      mret ([ RText ("Dragged from " +:+ point start.1 start.2 +:+ " to "
                     +:+ point end_.1 end_.2
                     +:+ " - RED MARKER shows end position");
              image screenshot ], scroll_counter)
  else if named action "type" then
      let text := default "" (text tool_input) in
      note (Noted ("TYPE: " +:+ String.substring 0 50 text +:+ "..."));;
      sleep 300;;
      input (Write text);;
      sleep 500;;
      screenshot ← take_screenshot true;
      mret ([ RText ("Typed: " +:+ String.substring 0 100 text);
              image screenshot ], scroll_counter)
  else if named action "key" then
      let key := default "" (text tool_input) in
      (if contains plus key then input (Hotkey (split_on plus key))
       else input (Press key));;
      sleep 500;;
      screenshot ← take_screenshot true;
      mret ([ RText ("Pressed: " +:+ key); image screenshot ], scroll_counter)
  else if named action "scroll" then
      let coord := default (756, 491)%Z (coordinate tool_input) in
      let direction := default "down" (scroll_direction tool_input) in
      let amount := default 3%Z (scroll_amount tool_input) in
      input (MoveTo coord.1 coord.2);;
      before ← take_screenshot true;
      before_hash ← reads (λ s, hash_of s before);
      (if String.eqb direction "down" then input (Scroll (- amount * 100))
       else if String.eqb direction "up" then input (Scroll (amount * 100))
       else if String.eqb direction "left" then input (HScroll (- amount * 100))
       else if String.eqb direction "right" then input (HScroll (amount * 100))
       else mret tt);;
      sleep 1000;;
      let scroll_counter := (scroll_counter + 1)%Z in
      after ← take_screenshot true;
      after_hash ← reads (λ s, hash_of s after);
      let changed := negb (bool_decide (before_hash = after_hash)) in
      let msg := "Scrolled " +:+ direction +:+ " by " +:+ pretty amount +:+ "."
                 +:+ (if changed then "" else " Content unchanged - may be at end.") in
      mret ([ RText msg; image after ], scroll_counter)
  else if named action "wait" then
      let duration := default 1%Z (duration tool_input) in
      sleep (duration * 1000);;
      screenshot ← take_screenshot true;
      mret ([ RText ("Waited " +:+ pretty duration +:+ "s"); image screenshot ],
            scroll_counter)
  else
      mret ([ RText ("Unknown action: " +:+ default "None" action) ], scroll_counter).

End Desktop.

(** ** Vocabulary for the screen *)

Module Devices.
Import History Desktop.

(** The actions that [execute_computer_tool] knows. *)
Definition actions : list string :=
  [ "screenshot"; "mouse_move"; "left_click"; "right_click"; "double_click";
    "left_click_drag"; "type"; "key"; "scroll"; "wait" ].

(** The point that an action records as the last click, if it does. *)
Definition clicked (tool_input : ComputerInput) : option (Z * Z) :=
  let target := default (0, 0)%Z (coordinate tool_input) in
  if named (action tool_input) "left_click" then Some target
  else if named (action tool_input) "right_click" then Some target
  else if named (action tool_input) "double_click" then Some target
  else if named (action tool_input) "left_click_drag" then Some target
  else None.

(** The screen after a computation, and what it returned. *)
Definition after {A : Type} (c : D A) (s : Screen) : Screen := (c s).2.

(** A screen on which nothing has happened: every capture succeeds and
    shows the marker it is given. *)
Definition idle : Screen :=
  {| inputs := []; last_click := None; shots := 0;
     display := λ n marker,
       Some ("shot" +:+ pretty n
             +:+ match marker with
                 | Some (x, y) => "@" +:+ point x y
                 | None => ""
                 end);
     digest := λ data, data;
     notes := [] |}.

(** A screen on which every capture fails. *)
Definition blind : Screen :=
  {| inputs := []; last_click := None; shots := 0;
     display := λ _ _, None; digest := λ data, data; notes := [] |}.

Definition just (name : string) : ComputerInput :=
  {| action := Some name; coordinate := None; start_coordinate := None;
     text := None; scroll_direction := None; scroll_amount := None;
     duration := None |}.

Definition at_point (name : string) (x y : Z) : ComputerInput :=
  {| action := Some name; coordinate := Some (x, y); start_coordinate := None;
     text := None; scroll_direction := None; scroll_amount := None;
     duration := None |}.

(** The captures among the inputs. *)
Definition is_capture (i : Input) : bool :=
  match i with Capture _ => true | _ => false end.

(** The inputs that move the content of the page. *)
Definition is_scroll (i : Input) : bool :=
  match i with Scroll _ | HScroll _ => true | _ => false end.

(** The actions that end with a capture of the screen. *)
Definition capturing : list string :=
  [ "left_click"; "right_click"; "double_click"; "left_click_drag";
    "type"; "key"; "scroll"; "wait" ].

(** The directions in which [execute_computer_tool] scrolls. *)
Definition directions : list string := [ "down"; "up"; "left"; "right" ].

End Devices.

(** ** Processing a reply: [TrainingAgent.agentic_loop], the tool calls *)

Module Loop.
Import History Runtime State Agent Desktop.

(** A tool-use block of a reply: its identifier, its name and its input,
    which is one dictionary, read at the schema of the bookkeeping tools
    and at the schema of the [computer] tool. *)
Record ToolUse := {
  use_id : string;
  use_name : string;
  use_input : ToolInput;
  use_computer_input : ComputerInput
}.

(** A block of a reply of the decision service. *)
Inductive ReplyBlock :=
| Thinking (thinking : string)
| Text (text : string)
| Use (u : ToolUse).


(** The agent with its screen. *)
Record Host := { world : World; desk : Screen }.

(** What a tool call can raise. *)
Inductive Error :=
| FromBookkeeping (e : Exc)
| FromDevices (e : Raised).

Definition with_scroll_count (count : Z) (w : World) : World :=
  {| modules := modules w; current_module := current_module w;
     session_start := session_start w; actions_cache := actions_cache w;
     confusion_log := confusion_log w; scroll_count := count;
     state_file := state_file w; log := log w; ticks := ticks w;
     wall_clock := wall_clock w; ui_events := ui_events w;
     captures := captures w; screen := Runtime.screen w;
     disk := disk w |}.

(** The body of the loop over the blocks for one tool-use block: the
    [computer] tool goes to [execute_computer_tool] with the count of
    scrolls, which is taken back afterwards; every other name goes to
    [_execute_custom_tool]. *)
Definition dispatch (block : ToolUse) (h : Host) : (Error + Block) * Host :=
  if String.eqb (use_name block) "computer" then
    match execute_computer_tool (use_computer_input block)
            (scroll_count (world h)) (desk h) with
    | (inr (result, count), s') =>
        (inr (BToolResult (use_id block) (RList result)),
         {| world := with_scroll_count count (world h); desk := s' |})
    | (inl e, s') => (inl (FromDevices e), {| world := world h; desk := s' |})
    end
  else
    match custom_tool_result (use_id block) (use_name block) (use_input block)
            (world h) with
    | (inr result, w') => (inr result, {| world := w'; desk := desk h |})
    | (inl e, w') => (inl (FromBookkeeping e), {| world := w'; desk := desk h |})
    end.

(** [for block in response.content], [tool_results] being the results
    collected so far; an exception ends the loop. *)
Fixpoint tool_results (content : list ReplyBlock) (results : list Block)
    (h : Host) : (Error + list Block) * Host :=
  match content with
  | [] => (inr results, h)
  | Use block :: content' =>
      match dispatch block h with
      | (inr result, h') => tool_results content' (results ++ [result])%list h'
      | (inl e, h') => (inl e, h')
      end
  | _ :: content' => tool_results content' results h
  end.





End Loop.

Import History Runtime State Agent Spec Reports Tools Laws.

(** Running [save]: the answers of the disk are taken from a hypothesis
    that it is reliable, or else told apart. *)
Ltac disk_answers :=
  repeat match goal with
  | H : reliable ?w |- context [disk ?w ?n] => rewrite (H n); simpl
  | |- context [disk ?w ?n] => destruct (disk w n) eqn:?; simpl
  end.

Ltac run_save :=
  unfold exec, save, logger, datetime_now, write_json, raise,
    mbind, M_bind, mret, M_ret, bind, ret, gets, modify, try_except;
  simpl; disk_answers.

(** Running the calls on the store, up to their calls of [save]. *)
Ltac run :=
  unfold exec, returns, call, mark_video_watched, record_assessment_attempt,
    get_or_create_module, logger, datetime_now,
    mbind, M_bind, mret, M_ret, bind, ret, gets, modify;
  simpl.

(** ** Eviction of old screenshots *)

Section for_each.
Context {A : Type} (body : nat → A → nat * A).

Lemma for_each_length c l : length (for_each body c l).2 = length l.
Proof.
  revert c. induction l as [|x l IH]; intros c; simpl; [done|].
  destruct (body c x) as [c1 x'] eqn:Hb.
  specialize (IH c1). destruct (for_each body c1 l) as [c2 l'']. simpl in *.
  by rewrite IH.
Qed.

Lemma for_each_Forall2 (R : A → A → Prop) c l :
  (∀ c x, R x (body c x).2) → Forall2 R l (for_each body c l).2.
Proof.
  intros HR. revert c. induction l as [|x l IH]; intros c; simpl; [constructor|].
  pose proof (HR c x) as Hx. destruct (body c x) as [c1 x'] eqn:Hb.
  specialize (IH c1). destruct (for_each body c1 l) as [c2 l'']. simpl in *.
  by constructor.
Qed.

Lemma for_each_settled : settled body → settled (for_each body).
Proof.
  intros Hs c c' l. revert c c'.
  induction l as [|x l IH]; intros c c' Hc; simpl; [done|].
  destruct (Hs c c' x Hc) as [Hx Hle].
  destruct (body c x) as [c1 x1] eqn:Hb1. simpl in *.
  specialize (IH c1).
  destruct (for_each body c1 l) as [c2 l2] eqn:Hf1. simpl in *.
  destruct (body c' x1) as [c1' x1'] eqn:Hb2. simpl in *. subst x1'.
  destruct (IH c1' Hle) as [Hl Hle2].
  destruct (for_each body c1' l2) as [c2' l2']. simpl in *.
  by subst.
Qed.
End for_each.

Lemma visit_result_item_settled k : settled (visit_result_item k).
Proof.
  intros c c' [text|source] Hc; simpl; [done|].
  destruct (k <? Z.of_nat (S c))%Z eqn:Hk; simpl; [split; [done|lia]|].
  apply Z.ltb_ge in Hk.
  destruct (k <? Z.of_nat (S c'))%Z eqn:Hk'; simpl; [|split; [done|lia]].
  apply Z.ltb_lt in Hk'. lia.
Qed.

Lemma visit_item_settled k : settled (visit_item k).
Proof.
  intros c c' item Hc.
  destruct item as [| |id [s|entries]| |]; simpl; try done.
  destruct (for_each_settled _ (visit_result_item_settled k) c c' entries Hc)
    as [Heq Hle].
  destruct (for_each (visit_result_item k) c entries) as [c1 l1]. simpl in *.
  destruct (for_each (visit_result_item k) c' l1) as [c2 l2]. simpl in *.
  by subst.
Qed.

Lemma visit_msg_settled k : settled (visit_msg k).
Proof.
  intros c c' [r ct] Hc. unfold visit_msg. simpl.
  destruct (String.eqb r "user") eqn:Hr; simpl; [|by rewrite Hr].
  destruct ct as [s|items]; simpl; [by rewrite Hr|].
  destruct (for_each_settled _ (visit_item_settled k) c c' items Hc)
    as [Heq Hle].
  destruct (for_each (visit_item k) c items) as [c1 l1]. simpl in *.
  rewrite Hr.
  destruct (for_each (visit_item k) c' l1) as [c2 l2]. simpl in *.
  by subst.
Qed.

(** C8: eviction is idempotent.  For every history and every retention
    count, evicting a second time with the same count gives the history
    that the first eviction gave. *)
Theorem truncate_old_images_idempotent (messages : list Message) (keep_recent : Z) :
  _truncate_old_images (_truncate_old_images messages keep_recent) keep_recent
  = _truncate_old_images messages keep_recent.
Proof.
  unfold _truncate_old_images. rewrite reverse_involutive.
  f_equal.
  by destruct (for_each_settled _ (visit_msg_settled keep_recent) 0 0
                 (reverse messages)).
Qed.

Lemma visit_result_item_evicted k c entry :
  evicted_item entry (visit_result_item k c entry).2.
Proof.
  destruct entry as [text|source]; simpl; [by left|].
  destruct (k <? Z.of_nat (S c))%Z; simpl; [right|left]; eauto.
Qed.

Lemma visit_item_evicted k c item : evicted_block item (visit_item k c item).2.
Proof.
  destruct item as [| |id [s|entries]| |]; simpl; try done.
  pose proof (for_each_Forall2 (visit_result_item k) evicted_item c entries
                (visit_result_item_evicted k)) as HF.
  destruct (for_each (visit_result_item k) c entries) as [c1 l1]. simpl in *.
  eauto.
Qed.

Lemma visit_msg_evicted k c msg : evicted_msg msg (visit_msg k c msg).2.
Proof.
  destruct msg as [r [s|items]]; unfold visit_msg, evicted_msg; simpl.
  - by destruct (String.eqb r "user").
  - destruct (String.eqb r "user"); [|done].
    pose proof (for_each_Forall2 (visit_item k) evicted_block c items
                  (visit_item_evicted k)) as HF.
    destruct (for_each (visit_item k) c items) as [c1 l1]. simpl in *.
    eauto.
Qed.

Lemma truncate_old_images_evicted messages keep_recent :
  Forall2 evicted_msg messages (_truncate_old_images messages keep_recent).
Proof.
  unfold _truncate_old_images.
  rewrite <- (reverse_involutive messages) at 1.
  apply Forall2_reverse, for_each_Forall2, visit_msg_evicted.
Qed.

Lemma evicted_direct_image source b : evicted_block (BImage source) b → b = BImage source.
Proof. done. Qed.

Lemma evicted_initial_message shot msg :
  evicted_msg (initial_message shot) msg → msg = initial_message shot.
Proof.
  destruct msg as [r ct]. intros [Hr (items' & Hc & HF)]. simpl in *. subst.
  unfold initial_message. f_equal. f_equal.
  inversion HF as [|? b1 ? l1 H1 HF1]; subst.
  inversion HF1 as [|? b2 ? l2 H2 HF2]; subst.
  inversion HF2; subst. simpl in *. by subst.
Qed.

Lemma run_history_head m0 steps messages :
  (∀ m, evicted_msg m0 m → m = m0) →
  head messages = Some m0 → head (run_history messages steps) = Some m0.
Proof.
  intros Hfix. revert messages.
  induction steps as [|s steps IH]; intros messages Hhd; [done|].
  apply IH. destruct s as [msg|k]; simpl.
  - rewrite head_app, Hhd. done.
  - destruct messages as [|m messages]; [done|]. simpl in Hhd. simplify_eq.
    pose proof (truncate_old_images_evicted (m0 :: messages) k) as HF.
    inversion HF as [|? m' ? l' Hm HF']; subst. simpl.
    by rewrite (Hfix m' Hm).
Qed.

(** C10: eviction rewrites nothing but image entries of tool results that
    sit in turns of role ["user"].  Every turn of the evicted history is
    the turn of the input at the same place, up to such entries turned
    into the placeholder; an image that is a block of a turn itself stays
    where it is; and the first turn that [agentic_loop] builds, with the
    initial screenshot, stays at the head of the history through any
    sequence of appended turns and evictions, hence through all the
    passes of the loop. *)
Theorem eviction_leaves_direct_images (messages : list Message) (keep_recent : Z) :
  Forall2 evicted_msg messages (_truncate_old_images messages keep_recent)
  ∧ (∀ i msg items j source,
       messages !! i = Some msg → content msg = CList items →
       items !! j = Some (BImage source) →
       ∃ msg' items',
         _truncate_old_images messages keep_recent !! i = Some msg'
         ∧ role msg' = role msg
         ∧ content msg' = CList items'
         ∧ items' !! j = Some (BImage source))
  ∧ (∀ initial_screenshot steps,
       head (run_history [initial_message initial_screenshot] steps)
       = Some (initial_message initial_screenshot))
  ∧ (∀ initial_screenshot passes,
       head (agentic_loop (Some initial_screenshot) passes)
       = if String.eqb initial_screenshot "" then None
         else Some (initial_message initial_screenshot)).
Proof.
  pose proof (truncate_old_images_evicted messages keep_recent) as HF.
  split; [done|]. split.
  - intros i msg items j source Hi Hc Hj.
    destruct (Forall2_lookup_l _ _ _ _ _ HF Hi) as (msg' & Hi' & Hr & Hm).
    rewrite Hc in Hm.
    destruct (String.eqb (role msg) "user").
    + destruct Hm as (items' & Hc' & HF').
      destruct (Forall2_lookup_l _ _ _ _ _ HF' Hj) as (b & Hj' & Hb).
      apply evicted_direct_image in Hb. subst b.
      by exists msg', items'.
    + subst msg'. by exists msg, items.
  - split.
    + intros shot steps. apply run_history_head; [|done].
      apply evicted_initial_message.
    + intros shot passes. unfold agentic_loop.
      destruct (String.eqb shot ""); [done|].
      apply run_history_head; [|done]. apply evicted_initial_message.
Qed.

Lemma eviction_leaves_direct_images_witness :
  ∃ msg' items',
    _truncate_old_images four_clicks 0 !! 0%nat = Some msg'
    ∧ role msg' = "user"
    ∧ content msg' = CList items'
    ∧ items' !! 1%nat = Some (BImage (png (Some "shot0"))).
Proof.
  exact (proj1 (proj2 (eviction_leaves_direct_images four_clicks 0))
           0%nat (initial_message "shot0") _ 1%nat (png (Some "shot0"))
           eq_refl eq_refl eq_refl).
Defined.

Lemma for_each_counts {A : Type} k (weight : A → nat) body :
  counts_with k weight body → counts_with k (sum_list_with weight) (for_each body).
Proof.
  intros Hb c l. revert c. induction l as [|x l IH]; intros c; simpl.
  - split; lia.
  - destruct (Hb c x) as [Hc Hw]. destruct (body c x) as [c1 x'] eqn:Hx.
    destruct (IH c1) as [Hc' Hw'].
    destruct (for_each body c1 l) as [c2 l'']. simpl in *. subst c1.
    split; [lia|]. rewrite Hw, Hw'. lia.
Qed.

Lemma visit_result_item_counts k : counts_with k images_of_item (visit_result_item k).
Proof.
  intros c [text|source]; simpl; [split; unfold images_of_item; simpl; lia|].
  destruct (k <? Z.of_nat (S c))%Z eqn:Hk; unfold images_of_item; simpl.
  - apply Z.ltb_lt in Hk. split; [lia|].
    destruct (Z.to_nat (k - Z.of_nat c)) eqn:E; lia.
  - apply Z.ltb_ge in Hk. split; [lia|].
    destruct (Z.to_nat (k - Z.of_nat c)) eqn:E; lia.
Qed.

Lemma visit_item_counts k : counts_with k images_of_block (visit_item k).
Proof.
  intros c item.
  destruct item as [| |id [s|entries]| |]; simpl; try (split; lia).
  destruct (for_each_counts k _ _ (visit_result_item_counts k) c entries)
    as [Hc Hw].
  destruct (for_each (visit_result_item k) c entries) as [c1 l1]. by simpl in *.
Qed.

Lemma visit_msg_counts k : counts_with k images_of_msg (visit_msg k).
Proof.
  intros c [r ct]. unfold visit_msg, images_of_msg. simpl.
  destruct (String.eqb r "user") eqn:Hr; simpl; [|rewrite Hr; split; lia].
  destruct ct as [s|items]; simpl; [rewrite Hr; split; lia|].
  destruct (for_each_counts k _ _ (visit_item_counts k) c items) as [Hc Hw].
  destruct (for_each (visit_item k) c items) as [c1 l1]. simpl in *.
  by rewrite Hr.
Qed.

(** How many images stay: after the eviction the tool results hold
    [keep_recent] images, or all of them when there are
    fewer, and the history has as many turns as before (what else stays
    in place is in [truncate_old_images_evicted]). *)
Lemma truncate_old_images_count (messages : list Message) (keep_recent : Z) :
  images (_truncate_old_images messages keep_recent)
  = (images messages `min` Z.to_nat keep_recent)%nat
  ∧ length (_truncate_old_images messages keep_recent) = length messages.
Proof.
  unfold _truncate_old_images, images. split.
  - rewrite sum_list_with_reverse.
    destruct (for_each_counts keep_recent _ _ (visit_msg_counts keep_recent) 0
                (reverse messages)) as [_ Hw].
    rewrite Hw, sum_list_with_reverse. f_equal. lia.
  - by rewrite length_reverse, for_each_length, length_reverse.
Qed.

(** C1: the code at a turn that answers four clicks, with the retention
    count 3 of [agentic_loop].  The entries of a turn are visited from the
    first to the last, so the three older screenshots of the turn stay and
    the newest one, [shot4], is the one replaced by the notice.  This is
    the history that the loop holds after one reply with four clicks. *)
Theorem truncate_old_images_drops_newest_in_turn :
  _truncate_old_images four_clicks 3
  = [ initial_message "shot0";
      assistant [ BToolUse "t1" "computer"; BToolUse "t2" "computer";
                  BToolUse "t3" "computer"; BToolUse "t4" "computer" ];
      tool_results_turn
        [ click_result "t1" "Clicked (10, 10) - RED MARKER shows where click landed" "shot1";
          click_result "t2" "Clicked (20, 20) - RED MARKER shows where click landed" "shot2";
          click_result "t3" "Clicked (30, 30) - RED MARKER shows where click landed" "shot3";
          BToolResult "t4"
            (RList [ RText "Clicked (40, 40) - RED MARKER shows where click landed";
                     RText placeholder ]) ] ]
  ∧ agentic_loop (Some "shot0")
      [ replied [ BToolUse "t1" "computer"; BToolUse "t2" "computer";
                  BToolUse "t3" "computer"; BToolUse "t4" "computer" ]
          "tool_use"
          [ action_result "Clicked (10, 10) - RED MARKER shows where click landed" (Some "shot1");
            action_result "Clicked (20, 20) - RED MARKER shows where click landed" (Some "shot2");
            action_result "Clicked (30, 30) - RED MARKER shows where click landed" (Some "shot3");
            action_result "Clicked (40, 40) - RED MARKER shows where click landed" (Some "shot4") ] ]
    = _truncate_old_images four_clicks 3.
Proof. split; reflexivity. Qed.

(** ** Progress store *)

Lemma save_returns w : (save w).1 = inr tt.
Proof. by run_save. Qed.

Lemma save_eq w : save w = (inr tt, exec save w).
Proof. by run_save. Qed.

Lemma save_modules w : modules (exec save w) = modules w.
Proof. by run_save. Qed.

Lemma save_disk w : disk (exec save w) = disk w.
Proof. by run_save. Qed.

Lemma save_ticks w : ticks (exec save w) = S (ticks w).
Proof. by run_save. Qed.

Lemma save_wall_clock w : wall_clock (exec save w) = wall_clock w.
Proof. by run_save. Qed.

Lemma save_actions_cache w : actions_cache (exec save w) = actions_cache w.
Proof. by run_save. Qed.

Lemma save_confusion_log w : confusion_log (exec save w) = confusion_log w.
Proof. by run_save. Qed.

Lemma save_ui_events w : ui_events (exec save w) = ui_events w.
Proof. by run_save. Qed.

Lemma save_captures w : captures (exec save w) = captures w.
Proof. by run_save. Qed.

Lemma save_reliable w : reliable w → reliable (exec save w).
Proof. intros Hw n. by rewrite save_disk. Qed.

Lemma save_persisted w : reliable w → persisted (exec save w).
Proof. intros Hw. run_save. by exists (wall_clock w (ticks w)). Qed.

Lemma save_completes_persisted w : save_completes w → persisted (exec save w).
Proof.
  unfold save_completes. run_save; rewrite last_snoc; try done.
  intros _. by exists (wall_clock w (ticks w)).
Qed.

Lemma reliable_save_completes w : reliable w → save_completes w.
Proof. intros Hw. unfold save_completes. run_save. by rewrite last_snoc. Qed.

(** The steps of a call after a [save]. *)
Ltac saved :=
  repeat (rewrite save_eq; simpl);
  rewrite ?save_modules, ?save_disk, ?save_ticks, ?save_wall_clock,
    ?save_actions_cache, ?save_confusion_log, ?save_ui_events, ?save_captures;
  simpl.

Lemma get_or_create_module_modules id name w :
  modules (exec (get_or_create_module id name) w)
  = match modules w !! id with
    | None => <[id := new_module id (or_else name id)]> (modules w)
    | Some p =>
        if truthy name && negb (truthy (module_name p))
        then <[id := set_module_name name p]> (modules w)
        else modules w
    end.
Proof.
  run. destruct (modules w !! id) as [p|]; simpl; [|by saved].
  destruct (truthy name && negb (truthy (module_name p))); simpl; [by saved|done].
Qed.

Lemma get_or_create_module_returns id name w :
  ∃ p, (get_or_create_module id name w).1 = inr p
       ∧ modules (exec (get_or_create_module id name) w) !! id = Some p.
Proof.
  run. destruct (modules w !! id) as [p|] eqn:Hp; simpl.
  - destruct (truthy name && negb (truthy (module_name p))); simpl; saved.
    + eexists; split; [done|]. apply lookup_insert_eq.
    + by exists p.
  - saved. eexists; split; [done|]. apply lookup_insert_eq.
Qed.

Lemma get_or_create_module_disk id name w :
  disk (exec (get_or_create_module id name) w) = disk w.
Proof.
  run. destruct (modules w !! id) as [p|]; simpl; [|by saved].
  destruct (truthy name && negb (truthy (module_name p))); simpl; [by saved|done].
Qed.

Lemma get_or_create_module_persisted id name w :
  reliable w →
  (modules (exec (get_or_create_module id name) w) = modules w
   ∧ state_file (exec (get_or_create_module id name) w) = state_file w)
  ∨ persisted (exec (get_or_create_module id name) w).
Proof.
  intros Hw. run. destruct (modules w !! id) as [p|]; simpl.
  - destruct (truthy name && negb (truthy (module_name p))); simpl.
    + right. saved. by apply save_persisted.
    + by left.
  - right. saved. by apply save_persisted.
Qed.

Lemma get_or_create_module_eq id name w :
  ∃ p, get_or_create_module id name w
       = (inr p, exec (get_or_create_module id name) w).
Proof.
  destruct (get_or_create_module_returns id name w) as (p & Hp & _).
  exists p. unfold exec. by destruct (get_or_create_module id name w); simplify_eq/=.
Qed.

Lemma mark_video_watched_modules id w :
  modules (exec (mark_video_watched id) w)
  = alter (set_video_watched true) id
      (modules (exec (get_or_create_module id "") w)).
Proof.
  destruct (get_or_create_module_eq id "" w) as [p Hp].
  unfold exec at 1, mark_video_watched, logger, mbind, M_bind, bind, modify.
  rewrite Hp. simpl. by saved.
Qed.

Lemma mark_video_watched_returns id w : (mark_video_watched id w).1 = inr tt.
Proof.
  destruct (get_or_create_module_eq id "" w) as [p Hp].
  unfold mark_video_watched, logger, mbind, M_bind, bind, modify.
  rewrite Hp. simpl. by saved.
Qed.

Lemma mark_video_watched_disk id w :
  disk (exec (mark_video_watched id) w) = disk w.
Proof.
  destruct (get_or_create_module_eq id "" w) as [p Hp].
  unfold exec at 1, mark_video_watched, logger, mbind, M_bind, bind, modify.
  rewrite Hp. simpl. saved. apply get_or_create_module_disk.
Qed.

Lemma mark_video_watched_persisted id w :
  reliable w → persisted (exec (mark_video_watched id) w).
Proof.
  intros Hw. destruct (get_or_create_module_eq id "" w) as [p Hp].
  unfold exec at 1, mark_video_watched, logger, mbind, M_bind, bind, modify.
  rewrite Hp. simpl. saved.
  match goal with |- persisted (with_log _ (exec save ?w1)) =>
    destruct (save_persisted w1) as [now Hnow];
      [intros n; simpl; by rewrite get_or_create_module_disk|by exists now]
  end.
Qed.

Lemma record_assessment_attempt_modules id passed total correct w :
  ∃ now,
    modules (exec (record_assessment_attempt id passed total correct) w)
    = alter (set_attempt passed total correct now) id
        (modules (exec (get_or_create_module id "") w)).
Proof.
  destruct (get_or_create_module_eq id "" w) as [p Hp].
  unfold exec at 1, record_assessment_attempt, logger, datetime_now,
    mbind, M_bind, bind, modify, gets.
  rewrite Hp. simpl. saved. by eexists.
Qed.

Lemma record_assessment_attempt_returns id passed total correct w :
  (record_assessment_attempt id passed total correct w).1 = inr tt.
Proof.
  destruct (get_or_create_module_eq id "" w) as [p Hp].
  unfold record_assessment_attempt, logger, datetime_now,
    mbind, M_bind, bind, modify, gets.
  rewrite Hp. simpl. by saved.
Qed.

Lemma record_assessment_attempt_disk id passed total correct w :
  disk (exec (record_assessment_attempt id passed total correct) w) = disk w.
Proof.
  destruct (get_or_create_module_eq id "" w) as [p Hp].
  unfold exec at 1, record_assessment_attempt, logger, datetime_now,
    mbind, M_bind, bind, modify, gets.
  rewrite Hp. simpl. saved. apply get_or_create_module_disk.
Qed.

Lemma record_assessment_attempt_persisted id passed total correct w :
  reliable w →
  persisted (exec (record_assessment_attempt id passed total correct) w).
Proof.
  intros Hw. destruct (get_or_create_module_eq id "" w) as [p Hp].
  unfold exec at 1, record_assessment_attempt, logger, datetime_now,
    mbind, M_bind, bind, modify, gets.
  rewrite Hp. simpl. saved.
  match goal with |- persisted (with_log _ (exec save ?w1)) =>
    destruct (save_persisted w1) as [now Hnow];
      [intros n; simpl; by rewrite get_or_create_module_disk|by exists now]
  end.
Qed.

Lemma call_returns c w : (call c w).1 = inr tt.
Proof.
  destruct c as [id name|id|id passed total correct].
  - destruct (get_or_create_module_returns id name w) as (p & Hp & _).
    unfold call, mbind, M_bind, bind.
    destruct (get_or_create_module id name w) as [[e|p'] w']; simpl in *; done.
  - apply mark_video_watched_returns.
  - apply record_assessment_attempt_returns.
Qed.

Lemma call_get_or_create id name w :
  exec (call (GetOrCreate id name)) w = exec (get_or_create_module id name) w.
Proof.
  destruct (get_or_create_module_returns id name w) as (p & Hp & _).
  unfold exec, call, mbind, M_bind, bind.
  by destruct (get_or_create_module id name w) as [[e|p'] w'].
Qed.

Lemma call_disk c w : disk (exec (call c) w) = disk w.
Proof.
  destruct c as [id name|id|id passed total correct].
  - rewrite call_get_or_create. apply get_or_create_module_disk.
  - apply mark_video_watched_disk.
  - apply record_assessment_attempt_disk.
Qed.

Lemma call_reliable c w : reliable w → reliable (exec (call c) w).
Proof. intros Hw n. by rewrite call_disk. Qed.

Lemma call_persisted c w :
  reliable w →
  (modules (exec (call c) w) = modules w
   ∧ state_file (exec (call c) w) = state_file w)
  ∨ persisted (exec (call c) w).
Proof.
  intros Hw. destruct c as [id name|id|id passed total correct].
  - rewrite call_get_or_create. by apply get_or_create_module_persisted.
  - right. by apply mark_video_watched_persisted.
  - right. by apply record_assessment_attempt_persisted.
Qed.

(** The document that [save] writes holds the entire store. *)
Lemma dict_get_map_to_list (ms : gmap string json) (id : string) :
  dict_get (map_to_list ms) id = ms !! id.
Proof.
  assert (∀ l : list (string * json), NoDup l.*1 →
            ∀ v, dict_get l id = Some v ↔ (id, v) ∈ l) as Hl.
  { induction l as [|[k v'] l IH]; intros Hnd v; simpl.
    - split; [done|]. by intros ?%elem_of_nil.
    - apply NoDup_cons in Hnd as [Hk Hnd].
      destruct (String.eqb k id) eqn:Hkid.
      + apply String.eqb_eq in Hkid as ->. split.
        * intros [= ->]. by left.
        * intros [[= ->]|Hin]%elem_of_cons; [done|].
          destruct Hk. apply list_elem_of_fmap. by exists (id, v).
      + apply String.eqb_neq in Hkid. rewrite IH by done. split.
        * by right.
        * by intros [[= ? ?]|Hin]%elem_of_cons. }
  destruct (ms !! id) as [v|] eqn:Hv.
  - apply Hl; [apply NoDup_fst_map_to_list|]. by apply elem_of_map_to_list.
  - destruct (dict_get (map_to_list ms) id) as [v|] eqn:Hd; [|done].
    apply Hl in Hd; [|apply NoDup_fst_map_to_list].
    apply elem_of_map_to_list in Hd. congruence.
Qed.

Lemma persisted_on_file w : persisted w → on_file w.
Proof.
  intros [now Hf]. eexists _, _. split; [exact Hf|]. split; [reflexivity|].
  split.
  - intros id p Hp. exists (to_dict p). split.
    + by rewrite dict_get_map_to_list, lookup_fmap, Hp.
    + eexists. split; [reflexivity|]. repeat split.
  - intros id Hp. by rewrite dict_get_map_to_list, lookup_fmap, Hp.
Qed.



Lemma run_calls_reliable calls w : reliable w → reliable (run_calls w calls).
Proof.
  revert w. induction calls as [|c calls IH]; intros w Hw; [done|].
  apply IH, call_reliable, Hw.
Qed.





(** The two bookkeeping tools that change the store return with the
    store written to the file. *)
Lemma bookkeeping_tools_persist input w :
  reliable w →
  persisted (exec (_execute_custom_tool "mark_video_watched" input) w)
  ∧ persisted (exec (_execute_custom_tool "record_assessment_result" input) w).
Proof.
  intros Hw. split.
  - unfold exec, _execute_custom_tool, mbind, M_bind, bind. simpl.
    set (id := get (in_module_id input) "unknown").
    set (name := get (in_module_name input) id).
    destruct (get_or_create_module_eq id name w) as [p ->].
    assert (reliable (exec (get_or_create_module id name) w)) as Hw1.
    { intros n. by rewrite get_or_create_module_disk. }
    pose proof (mark_video_watched_returns id (exec (get_or_create_module id name) w))
      as Hret.
    pose proof (mark_video_watched_persisted id _ Hw1) as Hpers.
    unfold exec at 1 in Hpers.
    by destruct (mark_video_watched id _) as [[e|[]] w2].
  - unfold exec, _execute_custom_tool, mbind, M_bind, bind. simpl.
    set (id := get (in_module_id input) "unknown").
    set (passed := get (in_passed input) false).
    set (total := get (in_questions_total input) 0%Z).
    set (correct := get (in_questions_correct input) 0%Z).
    pose proof (record_assessment_attempt_returns id passed total correct w) as Hret.
    pose proof (record_assessment_attempt_persisted id passed total correct w Hw)
      as Hpers.
    unfold exec in Hpers.
    by destruct (record_assessment_attempt id passed total correct w)
      as [[e|[]] w2].
Qed.

Lemma truthy_true s : truthy s = true ↔ s ≠ "".
Proof.
  unfold truthy. rewrite negb_true_iff. apply String.eqb_neq.
Qed.

Lemma truthy_false s : truthy s = false ↔ s = "".
Proof.
  unfold truthy. rewrite negb_false_iff. apply String.eqb_eq.
Qed.

Lemma get_or_create_module_other id name w id' :
  id ≠ id' →
  modules (exec (get_or_create_module id name) w) !! id' = modules w !! id'.
Proof.
  intros Hne. rewrite get_or_create_module_modules.
  destruct (modules w !! id) as [p|].
  - destruct (truthy name && negb (truthy (module_name p))); [|done].
    by rewrite lookup_insert_ne.
  - by rewrite lookup_insert_ne.
Qed.

Lemma get_or_create_module_created id name w :
  modules w !! id = None →
  modules (exec (get_or_create_module id name) w) !! id
  = Some (new_module id (or_else name id)).
Proof.
  intros Hnone. rewrite get_or_create_module_modules, Hnone.
  apply lookup_insert_eq.
Qed.

Lemma get_or_create_module_existing id name w p :
  modules w !! id = Some p →
  modules (exec (get_or_create_module id name) w) !! id
  = Some (if decide (module_name p = "") then set_module_name name p else p).
Proof.
  intros Hp. rewrite get_or_create_module_modules, Hp.
  destruct (truthy name) eqn:Hn; destruct (truthy (module_name p)) eqn:Hs; simpl.
  - apply truthy_true in Hs. by rewrite decide_False.
  - apply truthy_false in Hs. rewrite decide_True by done. apply lookup_insert_eq.
  - apply truthy_true in Hs. by rewrite decide_False.
  - apply truthy_false in Hs. apply truthy_false in Hn. subst name.
    rewrite decide_True by done. rewrite Hp. f_equal.
    destruct p; simpl in *. by subst.
Qed.

Lemma get_or_create_module_default id w p :
  modules w !! id = Some p →
  modules (exec (get_or_create_module id "") w) = modules w.
Proof. intros Hp. by rewrite get_or_create_module_modules, Hp. Qed.

Lemma call_after id c w p :
  modules w !! id = Some p →
  ∃ p', modules (exec (call c) w) !! id = Some p' ∧ after_call id c p p'.
Proof.
  intros Hp. destruct c as [id' name|id'|id' passed total correct];
    unfold after_call.
  - rewrite call_get_or_create. destruct (decide (id' = id)) as [->|Hne].
    + rewrite (get_or_create_module_existing _ _ _ _ Hp). eexists; split; [done|].
      destruct (decide (module_name p = "")).
      * by rewrite decide_True.
      * rewrite decide_False; [done|tauto].
    + rewrite get_or_create_module_other by done. exists p; split; [done|].
      rewrite decide_False; [done|tauto].
  - unfold call. rewrite mark_video_watched_modules.
    destruct (decide (id' = id)) as [->|Hne].
    + rewrite (get_or_create_module_default _ _ _ Hp).
      rewrite lookup_alter_eq, Hp. by eexists.
    + rewrite lookup_alter_ne, get_or_create_module_other by done. by exists p.
  - unfold call.
    destruct (record_assessment_attempt_modules id' passed total correct w)
      as [now ->].
    destruct (decide (id' = id)) as [->|Hne].
    + rewrite (get_or_create_module_default _ _ _ Hp).
      rewrite lookup_alter_eq, Hp. eexists; split; [done|]. by exists now.
    + rewrite lookup_alter_ne, get_or_create_module_other by done. by exists p.
Qed.






Lemma record_attempt_on_any id passed total correct w :
  ∃ p now,
    modules (exec (record_assessment_attempt id passed total correct) w) !! id
    = Some (set_attempt passed total correct now p)
    ∧ assessment_attempts p = attempts_of w id.
Proof.
  destruct (record_assessment_attempt_modules id passed total correct w)
    as [now ->].
  rewrite lookup_alter_eq. unfold attempts_of.
  destruct (modules w !! id) as [p|] eqn:Hp.
  - rewrite (get_or_create_module_default _ _ _ Hp), Hp. by exists p, now.
  - rewrite (get_or_create_module_created _ _ _ Hp). by eexists _, now.
Qed.

Lemma call_attempts id c w :
  attempts_of (exec (call c) w) id
  = (attempts_of w id + if records_on id c then 1 else 0)%Z.
Proof.
  destruct (modules w !! id) as [p|] eqn:Hp.
  - destruct (call_after id c w p Hp) as (p' & Hp' & Hafter).
    unfold attempts_of. rewrite Hp, Hp'. simpl.
    destruct c as [id' name|id'|id' passed total correct]; simpl in *.
    + subst p'. destruct (decide _); simpl; lia.
    + subst p'. destruct (decide _); simpl; lia.
    + destruct (decide (id' = id)) as [->|Hne].
      * destruct Hafter as [now ->]. by rewrite bool_decide_eq_true_2.
      * subst p'. rewrite bool_decide_eq_false_2 by done. lia.
  - destruct c as [id' name|id'|id' passed total correct]; simpl records_on.
    + rewrite call_get_or_create. unfold attempts_of. rewrite Hp.
      destruct (decide (id' = id)) as [->|Hne].
      * by rewrite (get_or_create_module_created _ _ _ Hp).
      * rewrite get_or_create_module_other, Hp by done. done.
    + unfold call, attempts_of. rewrite mark_video_watched_modules, Hp.
      destruct (decide (id' = id)) as [->|Hne].
      * by rewrite lookup_alter_eq, (get_or_create_module_created _ _ _ Hp).
      * rewrite lookup_alter_ne, get_or_create_module_other, Hp by done. done.
    + unfold call. destruct (decide (id' = id)) as [->|Hne].
      * destruct (record_attempt_on_any id passed total correct w)
          as (p & now & Hp' & Hprior).
        unfold attempts_of in *. rewrite Hp', Hp in *. simpl in *.
        rewrite bool_decide_eq_true_2 by done. lia.
      * destruct (record_assessment_attempt_modules id' passed total correct w)
          as [now Hm].
        unfold attempts_of. rewrite Hm, Hp.
        rewrite lookup_alter_ne, get_or_create_module_other, Hp by done.
        rewrite bool_decide_eq_false_2 by done. done.
Qed.

Lemma run_calls_attempts id calls w :
  attempts_of (run_calls w calls) id
  = (attempts_of w id + Z.of_nat (length (filter (λ c, records_on id c) calls)))%Z.
Proof.
  revert w. induction calls as [|c calls IH]; intros w; simpl; [lia|].
  rewrite IH, call_attempts. rewrite filter_cons.
  destruct (decide (records_on id c)) as [Hc|Hc];
    destruct (records_on id c); try done; simpl; lia.
Qed.

Lemma run_calls_app w calls calls' :
  run_calls w (calls ++ calls') = run_calls (run_calls w calls) calls'.
Proof. apply foldl_app. Qed.

(** C6: after N >= 1 calls of [record_assessment_attempt] on a module, the
    counter of attempts is the one before the calls plus N, which is N for
    a module without earlier attempts, and the pass flag and the two
    question counts are the arguments of the last call. *)
Theorem record_attempt_counts (w : World) (id : string)
    (earlier : list (bool * Z * Z)) (passed : bool) (total correct : Z) :
  let attempt (a : bool * Z * Z) := RecordAttempt id a.1.1 a.1.2 a.2 in
  let N := S (length earlier) in
  ∃ p,
    modules (run_calls w (attempt <$> (earlier ++ [(passed, total, correct)])%list))
      !! id = Some p
    ∧ assessment_attempts p = (attempts_of w id + Z.of_nat N)%Z
    ∧ (attempts_of w id = 0%Z → assessment_attempts p = Z.of_nat N)
    ∧ assessment_passed p = passed
    ∧ questions_answered p = total
    ∧ questions_correct p = correct.
Proof.
  intros attempt N. rewrite fmap_app, run_calls_app. simpl.
  set (w1 := run_calls w (attempt <$> earlier)).
  destruct (record_attempt_on_any id passed total correct w1)
    as (p & now & Hp & Hprior).
  assert (attempts_of w1 id = (attempts_of w id + Z.of_nat (length earlier))%Z)
    as Hw1.
  { unfold w1. rewrite run_calls_attempts. do 2 f_equal.
    clear. induction earlier as [|a earlier IH]; [done|].
    rewrite fmap_cons, filter_cons.
    destruct (decide (records_on id (attempt a))) as [Hc|Hc].
    - simpl. by rewrite IH.
    - exfalso. apply Hc. simpl. by rewrite bool_decide_eq_true_2. }
  eexists. split; [exact Hp|]. simpl. rewrite Hprior, Hw1.
  repeat split; subst N; lia.
Qed.

Lemma record_attempt_counts_witness :
  ∃ p,
    modules (run_calls (boot Missing)
               [ RecordAttempt "m1" false 5 2; RecordAttempt "m1" false 5 3;
                 RecordAttempt "m1" true 5 5 ]) !! "m1" = Some p
    ∧ assessment_attempts p = 3%Z
    ∧ assessment_passed p = true
    ∧ questions_answered p = 5%Z
    ∧ questions_correct p = 5%Z.
Proof.
  destruct (record_attempt_counts (boot Missing) "m1"
              [(false, 5%Z, 2%Z); (false, 5%Z, 3%Z)] true 5%Z 5%Z)
    as (p & Hp & _ & HN & Hpassed & Htotal & Hcorrect).
  exists p. split; [exact Hp|]. split; [exact (HN eq_refl)|]. by repeat split.
Defined.

(** C7: [get_failed_assessments] returns the modules whose video was
    watched and whose assessment has not passed, and no other: an entry is
    in the list exactly when it is built from such a module of the store.
    A module that was never marked as watched has no entry, whatever
    attempts it has recorded. *)
Theorem failed_assessments_exact (w : World) :
  (∀ entry,
     entry ∈ get_failed_assessments w ↔
     ∃ id p, modules w !! id = Some p
             ∧ video_watched p = true ∧ assessment_passed p = false
             ∧ entry = {| failed_id := id; failed_name := module_name p;
                          failed_attempts := assessment_attempts p |})
  ∧ (∀ id p, modules w !! id = Some p → video_watched p = false →
       ∀ entry, entry ∈ get_failed_assessments w → failed_id entry ≠ id).
Proof.
  assert (∀ entry,
     entry ∈ get_failed_assessments w ↔
     ∃ id p, modules w !! id = Some p
             ∧ video_watched p = true ∧ assessment_passed p = false
             ∧ entry = {| failed_id := id; failed_name := module_name p;
                          failed_attempts := assessment_attempts p |}) as Hexact.
  { intros entry. unfold get_failed_assessments.
    rewrite list_elem_of_fmap. split.
    - intros ([id p] & -> & Hin). apply list_elem_of_filter in Hin as [Hf Hin].
      apply elem_of_map_to_list in Hin. simpl in *.
      apply andb_prop_elim in Hf as [Hw Hp].
      apply Is_true_true in Hw. apply negb_prop_elim in Hp.
      exists id, p. repeat split; try done.
      by destruct (assessment_passed p).
    - intros (id & p & Hl & Hw & Hp & ->). exists (id, p). split; [done|].
      apply list_elem_of_filter. split; [|by apply elem_of_map_to_list].
      simpl. by rewrite Hw, Hp. }
  split; [done|].
  intros id p Hl Hw entry Hin Heq.
  apply Hexact in Hin as (id' & p' & Hl' & Hw' & _ & ->). simpl in *.
  congruence.
Qed.

Lemma failed_assessments_exact_witness :
  let w := run_calls (boot Missing)
             [ MarkWatched "m1"; RecordAttempt "m1" false 5 2;
               RecordAttempt "m2" true 5 5; RecordAttempt "m3" false 4 1 ] in
  {| failed_id := "m1"; failed_name := "m1"; failed_attempts := 1 |}
    ∈ get_failed_assessments w
  ∧ ∀ entry, entry ∈ get_failed_assessments w → failed_id entry ≠ "m3".
Proof.
  intros w. split.
  - apply (proj1 (failed_assessments_exact w)).
    exists "m1", {| module_id := "m1"; module_name := "m1"; video_watched := true;
                    assessment_attempts := 1; assessment_passed := false;
                    questions_answered := 5; questions_correct := 2;
                    last_attempt := Some "t2" |}.
    repeat split; reflexivity.
  - apply (proj2 (failed_assessments_exact w) "m3"
             {| module_id := "m3"; module_name := "m3"; video_watched := false;
                assessment_attempts := 1; assessment_passed := false;
                questions_answered := 4; questions_correct := 1;
                last_attempt := Some "t8" |}); reflexivity.
Defined.

(** The scenario of two modules: [m1] watched and failed with 2 of 5,
    [m2] passed with 5 of 5 and never marked as watched. *)
Example two_modules_scenario :
  let w := run_calls (boot Missing)
             [ MarkWatched "m1"; RecordAttempt "m1" false 5 2;
               RecordAttempt "m2" true 5 5 ] in
  get_failed_assessments w
  = [ {| failed_id := "m1"; failed_name := "m1"; failed_attempts := 1 |} ]
  ∧ size (modules w) = 2
  ∧ count_if assessment_passed (map_to_list (modules w)).*2 = 1.
Proof. repeat split; vm_compute; reflexivity. Qed.

(** ** Loading and saving *)

Lemma from_dict_to_dict p : from_dict (to_dict p) = inr p.
Proof. destruct p as [? ? ? ? ? ? ? [t|]]; reflexivity. Qed.

Lemma modules_of_items_to_dict (l : list (string * ModuleProgress)) acc :
  modules_of_items (prod_map id to_dict <$> l) acc
  = inr (foldl (λ m kp, <[kp.1 := kp.2]> m) acc l).
Proof.
  revert acc. induction l as [|[k p] l IH]; intros acc; [done|].
  rewrite fmap_cons. cbn -[to_dict from_dict].
  by rewrite from_dict_to_dict, IH.
Qed.

Lemma foldl_insert_list_to_map (l : list (string * ModuleProgress)) :
  foldl (λ m kp, <[kp.1 := kp.2]> m) (∅ : gmap string ModuleProgress) l
  = list_to_map (reverse l).
Proof.
  induction l as [|[k p] l IH] using rev_ind; [done|].
  by rewrite foldl_snoc, reverse_snoc, IH.
Qed.

Lemma foldl_insert_map_to_list (ms : gmap string ModuleProgress) :
  foldl (λ m kp, <[kp.1 := kp.2]> m) ∅ (map_to_list ms) = ms.
Proof.
  rewrite foldl_insert_list_to_map.
  rewrite <- (list_to_map_to_list ms) at 2. symmetry.
  apply list_to_map_proper; [apply NoDup_fst_map_to_list|].
  symmetry. apply reverse_Permutation.
Qed.

Lemma load_saved_document ms now w :
  state_file w = Document (document ms now) →
  (_load w).1 = inr tt ∧ modules (exec _load w) = ms.
Proof.
  intros Hf. unfold exec, _load, try_except, read_json, lift, logger,
    mbind, M_bind, bind, gets, modify. simpl. rewrite Hf. simpl.
  rewrite map_to_list_fmap, modules_of_items_to_dict, foldl_insert_map_to_list.
  done.
Qed.

(** C5: a store that is saved and loaded again is the store that was
    saved.  Whatever the modules of the store, when [save] completes (the
    write of the file does not raise), a process that starts on the file
    that [save] leaves loads without raising and holds the same map of
    modules, so every module has the same eight fields. *)
Theorem save_load_roundtrip (w restarted : World) :
  save_completes w →
  let file := state_file (exec save w) in
  let w' := exec __init__ (with_state_file file restarted) in
  (__init__ (with_state_file file restarted)).1 = inr tt
  ∧ modules w' = modules w
  ∧ ∀ id, modules w' !! id = modules w !! id.
Proof.
  intros Hw file w'.
  assert ((__init__ (with_state_file file restarted)).1 = inr tt
          ∧ modules w' = modules w) as [Hret Hm].
  { destruct (save_completes_persisted w Hw) as [now Hnow].
    rewrite save_modules in Hnow.
    unfold w', exec, __init__, mbind, M_bind, bind, modify, datetime_now, gets.
    simpl.
    match goal with
    | |- (_load ?w0).1 = _ ∧ modules (_load ?w0).2 = _ =>
        apply (load_saved_document (modules w) now w0)
    end.
    exact Hnow. }
  split; [done|]. split; [done|]. intros id. by rewrite Hm.
Qed.

Lemma save_load_roundtrip_witness :
  modules (exec __init__
             (with_state_file
                (state_file (exec save (exec (mark_video_watched "m1") (boot Missing))))
                (boot Missing)))
  = modules (exec (mark_video_watched "m1") (boot Missing)).
Proof.
  exact (proj1 (proj2 (save_load_roundtrip
                         (exec (mark_video_watched "m1") (boot Missing))
                         (boot Missing) eq_refl))).
Defined.

Lemma load_returns w : (_load w).1 = inr tt.
Proof.
  unfold _load, try_except.
  match goal with
  | |- (match ?c w with _ => _ end).1 = _ => destruct (c w) as [[e|[]] w']
  end; [|done].
  by destruct e.
Qed.

Lemma init_returns w : (__init__ w).1 = inr tt.
Proof.
  unfold __init__, mbind, M_bind, bind, modify, datetime_now, gets. simpl.
  apply load_returns.
Qed.

Lemma load_missing w :
  state_file w = Missing →
  modules (exec _load w) = modules w
  ∧ log (exec _load w)
    = (log w ++ [Info "No previous progress found, starting fresh"])%list.
Proof.
  intros Hf. unfold exec, _load, try_except, read_json, raise,
    mbind, M_bind, bind, gets. simpl. by rewrite Hf.
Qed.

Lemma load_unparseable w text :
  state_file w = Unparseable text →
  modules (exec _load w) = modules w
  ∧ log (exec _load w)
    = (log w ++ [Error "Error loading state: " JSONDecodeError])%list.
Proof.
  intros Hf. unfold exec, _load, try_except, read_json, raise,
    mbind, M_bind, bind, gets. simpl. by rewrite Hf.
Qed.

Lemma init_modules w :
  modules (exec __init__ w)
  = modules (exec _load (with_session None (wall_clock w (ticks w))
                           (with_ticks (S (ticks w)) (with_modules (λ _, ∅) w)))).
Proof. reflexivity. Qed.

(** C9: loading never raises.  [_load] and the constructor that calls it
    return for every backing file.  When the file is missing, the store of
    the new process is empty and the absence is logged as information;
    when the file is not a JSON text, the store is empty as well and the
    failure is logged as an error. *)
Theorem load_never_raises (w : World) :
  (_load w).1 = inr tt
  ∧ (__init__ w).1 = inr tt
  ∧ (state_file w = Missing →
       modules (exec __init__ w) = ∅
       ∧ modules (exec _load w) = modules w
       ∧ log (exec _load w)
         = (log w ++ [Info "No previous progress found, starting fresh"])%list)
  ∧ (∀ text, state_file w = Unparseable text →
       modules (exec __init__ w) = ∅
       ∧ modules (exec _load w) = modules w
       ∧ log (exec _load w)
         = (log w ++ [Error "Error loading state: " JSONDecodeError])%list).
Proof.
  split; [apply load_returns|]. split; [apply init_returns|]. split.
  - intros Hf. split; [|by apply load_missing].
    rewrite init_modules.
    match goal with
    | |- modules (exec _load ?w0) = _ =>
        destruct (load_missing w0 Hf) as [-> _]
    end. done.
  - intros text Hf. split; [|by apply (load_unparseable w text)].
    rewrite init_modules.
    match goal with
    | |- modules (exec _load ?w0) = _ =>
        destruct (load_unparseable w0 text Hf) as [-> _]
    end. done.
Qed.

Lemma load_never_raises_witness :
  (modules (exec __init__ (boot Missing)) = ∅
   ∧ log (exec _load (boot Missing))
     = [Info "No previous progress found, starting fresh"])
  ∧ (modules (exec __init__ (boot (Unparseable "{ modules: "))) = ∅
     ∧ log (exec _load (boot (Unparseable "{ modules: ")))
       = [Error "Error loading state: " JSONDecodeError]).
Proof.
  split.
  - destruct (proj1 (proj2 (proj2 (load_never_raises (boot Missing)))) eq_refl)
      as (Hm & _ & Hl).
    split; [exact Hm|exact Hl].
  - destruct (proj2 (proj2 (proj2 (load_never_raises
                (boot (Unparseable "{ modules: ")))))
                "{ modules: " eq_refl) as (Hm & _ & Hl).
    split; [exact Hm|exact Hl].
Defined.

(** ** Bookkeeping dispatcher *)

(** C3: the code on a cached action.  The click is made at the cached
    coordinates and the screen is captured once, but the capture is
    dropped: the content of the tool result is a single text entry and
    holds no image. *)
Theorem use_cached_action_returns_text_only (w : World)
    (block_id action_name : string) (x y : Z) (input : ToolInput) :
  in_action_name input = Some action_name →
  actions_cache w !! action_name = Some (x, y) →
  let r := custom_tool_result block_id "use_cached_action" input w in
  r.1 = inr (BToolResult block_id
               (RList [ RText ("Clicked cached location '" +:+ action_name
                               +:+ "' at " +:+ coordinates x y
                               +:+ ". Screenshot taken.") ]))
  ∧ ui_events r.2 = (ui_events w ++ [Click x y; Sleep 500; Screencapture])%list
  ∧ captures r.2 = S (captures w)
  ∧ ∀ id entries, r.1 = inr (BToolResult id (RList entries)) →
      Forall (λ entry, is_image entry = false) entries.
Proof.
  intros Hname Hcache r.
  assert (r = custom_tool_result block_id "use_cached_action" input w) as Hr by done.
  unfold custom_tool_result, _execute_custom_tool, take_screenshot, click, sleep,
    get, mbind, M_bind, mret, M_ret, bind, ret, gets, modify in Hr.
  simpl in Hr. rewrite Hname in Hr. simpl in Hr. rewrite Hcache in Hr.
  simpl in Hr. rewrite Hr. simpl. repeat split.
  - by rewrite <- !(assoc_L (++)).
  - intros id entries Heq. simplify_eq. by repeat constructor.
Qed.

Lemma use_cached_action_returns_text_only_witness :
  let w := exec (_execute_custom_tool "cache_action"
                   {| in_module_id := None; in_module_name := None;
                      in_passed := None; in_questions_total := None;
                      in_questions_correct := None;
                      in_action_name := Some "next"; in_x := Some 100%Z;
                      in_y := Some 200%Z; in_description := None;
                      in_location := None; in_severity := None |})
                (boot Missing) in
  let input :=
    {| in_module_id := None; in_module_name := None; in_passed := None;
       in_questions_total := None; in_questions_correct := None;
       in_action_name := Some "next"; in_x := None; in_y := None;
       in_description := None; in_location := None; in_severity := None |} in
  (custom_tool_result "t1" "use_cached_action" input w).1
  = inr (BToolResult "t1"
           (RList [ RText "Clicked cached location 'next' at (100, 200). Screenshot taken." ]))
  ∧ ui_events (custom_tool_result "t1" "use_cached_action" input w).2
    = [Click 100 200; Sleep 500; Screencapture].
Proof.
  intros w input.
  destruct (use_cached_action_returns_text_only w "t1" "next" 100 200 input
              eq_refl eq_refl) as (Hres & Hev & _).
  split; [exact Hres|exact Hev].
Defined.

(** ** More on the eviction and on the history of the loop *)

Lemma for_each_below {A : Type} (weight : A → nat) body (k : Z) :
  (∀ (c : nat) x, (Z.of_nat (c + weight x) ≤ k)%Z → body c x = ((c + weight x)%nat, x)) →
  ∀ (c : nat) l, (Z.of_nat (c + sum_list_with weight l) ≤ k)%Z →
    for_each body c l = ((c + sum_list_with weight l)%nat, l).
Proof.
  intros Hb c l. revert c. induction l as [|x l IH]; intros c Hc; simpl in *.
  - f_equal. lia.
  - rewrite Hb by lia. rewrite IH by lia. f_equal. lia.
Qed.

Lemma visit_result_item_below k (c : nat) entry :
  (Z.of_nat (c + images_of_item entry) ≤ k)%Z →
  visit_result_item k c entry = ((c + images_of_item entry)%nat, entry).
Proof.
  destruct entry as [text|source]; unfold images_of_item; simpl; intros Hc.
  - f_equal. lia.
  - destruct (k <? Z.of_nat (S c))%Z eqn:Hk; [apply Z.ltb_lt in Hk; lia|].
    f_equal. lia.
Qed.

Lemma visit_item_below k (c : nat) item :
  (Z.of_nat (c + images_of_block item) ≤ k)%Z →
  visit_item k c item = ((c + images_of_block item)%nat, item).
Proof.
  destruct item as [| |id [s|entries]| |]; simpl; intros Hc;
    try (f_equal; lia).
  by rewrite (for_each_below images_of_item _ k (visit_result_item_below k)).
Qed.

Lemma visit_msg_below k (c : nat) msg :
  (Z.of_nat (c + images_of_msg msg) ≤ k)%Z →
  visit_msg k c msg = ((c + images_of_msg msg)%nat, msg).
Proof.
  destruct msg as [r ct]. unfold visit_msg, images_of_msg. simpl.
  destruct (String.eqb r "user"); [|intros; f_equal; lia].
  destruct ct as [s|items]; [intros; f_equal; lia|]. intros Hc.
  by rewrite (for_each_below images_of_block _ k (visit_item_below k)).
Qed.

(** Below the retention count the eviction does nothing: a history whose
    tool results hold at most [keep_recent] images comes back as it is. *)
Theorem truncate_old_images_below (messages : list Message) (keep_recent : Z) :
  (Z.of_nat (images messages) ≤ keep_recent)%Z →
  _truncate_old_images messages keep_recent = messages.
Proof.
  intros Hc. unfold _truncate_old_images.
  rewrite (for_each_below images_of_msg _ keep_recent (visit_msg_below keep_recent)).
  - apply reverse_involutive.
  - unfold images in Hc. rewrite sum_list_with_reverse. simpl. lia.
Qed.

Lemma truncate_old_images_below_witness :
  _truncate_old_images four_clicks 4 = four_clicks.
Proof. apply truncate_old_images_below. vm_compute. discriminate. Defined.

Lemma for_each_composes {A : Type} k (first second both : nat → A → nat * A) :
  composes k first second both →
  composes k (for_each first) (for_each second) (for_each both).
Proof.
  intros Hb c1 c2 l. revert c1 c2.
  induction l as [|x l IH]; intros c1 c2 Hf; simpl; [done|].
  destruct (Hb c1 c2 x Hf) as (Hc & Hx & Hf').
  destruct (both c1 x) as [cb xb]. destruct (first c1 x) as [cf xf].
  simpl in *. destruct (second c2 xf) as [cs xs] eqn:Hs. simpl in *. subst cb xb.
  destruct (IH cf cs Hf') as (Hc' & Hl & Hf'').
  destruct (for_each both cf l) as [cb' lb].
  destruct (for_each first cf l) as [cf' lf]. simpl in *. rewrite Hs.
  destruct (for_each second cs lf) as [cs' ls]. simpl in *. by subst.
Qed.

Lemma visit_result_item_composes k k' :
  composes k (visit_result_item k) (visit_result_item k')
    (visit_result_item (k `min` k')).
Proof.
  intros c1 c2 [text|source] [Hle Heq]; simpl; [done|].
  destruct (k <? Z.of_nat (S c1))%Z eqn:Hk; simpl.
  - apply Z.ltb_lt in Hk.
    destruct (k `min` k' <? Z.of_nat (S c1))%Z eqn:Hm; simpl.
    + repeat split; lia.
    + apply Z.ltb_ge in Hm. lia.
  - apply Z.ltb_ge in Hk. assert (c2 = c1) as -> by (apply Heq; lia).
    destruct (k' <? Z.of_nat (S c1))%Z eqn:Hk';
      destruct (k `min` k' <? Z.of_nat (S c1))%Z eqn:Hm; simpl;
      try apply Z.ltb_lt in Hk'; try apply Z.ltb_ge in Hk';
      try apply Z.ltb_lt in Hm; try apply Z.ltb_ge in Hm;
      try lia; repeat split; lia.
Qed.

Lemma visit_item_composes k k' :
  composes k (visit_item k) (visit_item k') (visit_item (k `min` k')).
Proof.
  intros c1 c2 item Hf.
  destruct item as [| |id [s|entries]| |]; simpl; try done.
  destruct (for_each_composes k _ _ _ (visit_result_item_composes k k')
              c1 c2 entries Hf) as (Hc & Hl & Hf').
  destruct (for_each (visit_result_item (k `min` k')) c1 entries) as [cb lb].
  destruct (for_each (visit_result_item k) c1 entries) as [cf lf]. simpl in *.
  destruct (for_each (visit_result_item k') c2 lf) as [cs ls]. simpl in *.
  by subst.
Qed.

Lemma visit_msg_composes k k' :
  composes k (visit_msg k) (visit_msg k') (visit_msg (k `min` k')).
Proof.
  intros c1 c2 [r ct] Hf. unfold visit_msg. simpl.
  destruct (String.eqb r "user") eqn:Hr; simpl; [|by rewrite Hr].
  destruct ct as [s|items]; simpl; [by rewrite Hr|].
  destruct (for_each_composes k _ _ _ (visit_item_composes k k')
              c1 c2 items Hf) as (Hc & Hl & Hf').
  destruct (for_each (visit_item (k `min` k')) c1 items) as [cb lb].
  destruct (for_each (visit_item k) c1 items) as [cf lf]. simpl in *.
  rewrite Hr.
  destruct (for_each (visit_item k') c2 lf) as [cs ls]. simpl in *.
  by subst.
Qed.

(** Evictions compose: evicting with one retention count and then with
    another gives what one eviction with the smaller count gives, in
    either order. *)
Theorem truncate_old_images_twice (messages : list Message) (k k' : Z) :
  _truncate_old_images (_truncate_old_images messages k) k'
  = _truncate_old_images messages (k `min` k')
  ∧ _truncate_old_images (_truncate_old_images messages k) k'
    = _truncate_old_images (_truncate_old_images messages k') k.
Proof.
  assert (∀ a b, _truncate_old_images (_truncate_old_images messages a) b
                 = _truncate_old_images messages (a `min` b)) as H.
  { intros a b. unfold _truncate_old_images. rewrite reverse_involutive. f_equal.
    assert (follows a 0 0) as Hf by done.
    by destruct (for_each_composes a _ _ _ (visit_msg_composes a b) 0 0
                   (reverse messages) Hf) as (_ & -> & _). }
  split; [apply H|]. rewrite !H. f_equal. lia.
Qed.

Lemma images_app l l' : images (l ++ l') = (images l + images l')%nat.
Proof. apply sum_list_with_app. Qed.

Lemma history_step_bounded messages s :
  (images messages ≤ 3)%nat →
  (∀ msg, s = Append msg → images_of_msg msg = 0%nat) →
  (images (history_step messages s) ≤ 3)%nat.
Proof.
  intros Hb Hs. destruct s as [msg|k]; simpl.
  - rewrite images_app. unfold images at 2. simpl. rewrite (Hs msg eq_refl). lia.
  - destruct (truncate_old_images_count messages k) as [-> _]. lia.
Qed.

Lemma append_bounded messages msg :
  (images messages ≤ 3)%nat → images_of_msg msg = 0%nat →
  (images (messages ++ [msg]) ≤ 3)%nat.
Proof.
  intros Hb Hm. apply (history_step_bounded messages (Append msg) Hb).
  by intros ? [= <-].
Qed.

Lemma iteration_bounded o messages :
  (images messages ≤ 3)%nat → (images (run_history messages (iteration o)) ≤ 3)%nat.
Proof.
  intros Hb. destruct o as [e|e|reply e|reply stop results]; simpl.
  - by apply append_bounded.
  - by apply append_bounded.
  - apply append_bounded; [|done]. by apply append_bounded.
  - assert (images (messages ++ [assistant reply]) ≤ 3)%nat as Hb'
        by (by apply append_bounded).
    destruct (tool_use_ids reply) as [|id ids].
    + destruct (String.eqb stop "end_turn"); simpl; [|done].
      by apply append_bounded.
    + unfold run_history. cbn [foldl history_step].
      match goal with
      | |- (images (_truncate_old_images ?m 3) ≤ 3)%nat =>
          destruct (truncate_old_images_count m 3) as [-> _]
      end. lia.
Qed.

Lemma run_history_app messages steps steps' :
  run_history messages (steps ++ steps')
  = run_history (run_history messages steps) steps'.
Proof. apply foldl_app. Qed.

(** The loop keeps the history bounded in images: after any number of
    passes, whatever they were, the tool results of the history hold at
    most three images. *)
Theorem agentic_loop_keeps_three_images (initial_screenshot : option string)
    (passes : list Outcome) :
  (images (agentic_loop initial_screenshot passes) ≤ 3)%nat.
Proof.
  unfold agentic_loop. destruct initial_screenshot as [shot|]; [|simpl; lia].
  destruct (String.eqb shot ""); [simpl; lia|].
  assert (images [initial_message shot] ≤ 3)%nat as Hb by (simpl; lia).
  revert Hb. generalize [initial_message shot].
  induction passes as [|o passes IH]; intros messages Hb; [done|].
  rewrite fmap_cons. simpl concat. rewrite run_history_app.
  apply IH, iteration_bounded, Hb.
Qed.





Lemma for_each_shifted {A : Type} c0 (body body' : nat → A → nat * A) :
  shifted c0 body body' → shifted c0 (for_each body) (for_each body').
Proof.
  intros Hb c l. revert c. induction l as [|x l IH]; intros c; simpl.
  - done.
  - rewrite Hb. destruct (body' c x) as [c1 x']. simpl.
    rewrite IH. by destruct (for_each body' c1 l) as [c2 l''].
Qed.

Lemma visit_result_item_shifted k c0 :
  shifted c0 (visit_result_item k) (visit_result_item (k - Z.of_nat c0)).
Proof.
  intros c [text|source]; simpl; [done|].
  destruct (k <? Z.of_nat (S (c0 + c)))%Z eqn:Hk;
    destruct (k - Z.of_nat c0 <? Z.of_nat (S c))%Z eqn:Hk'; simpl;
    try apply Z.ltb_lt in Hk; try apply Z.ltb_ge in Hk;
    try apply Z.ltb_lt in Hk'; try apply Z.ltb_ge in Hk'; try lia;
    f_equal; lia.
Qed.

Lemma visit_item_shifted k c0 :
  shifted c0 (visit_item k) (visit_item (k - Z.of_nat c0)).
Proof.
  intros c item. destruct item as [| |id [s|entries]| |]; simpl; try done.
  rewrite (for_each_shifted c0 _ _ (visit_result_item_shifted k c0)).
  by destruct (for_each (visit_result_item (k - Z.of_nat c0)) c entries).
Qed.

Lemma visit_msg_shifted k c0 :
  shifted c0 (visit_msg k) (visit_msg (k - Z.of_nat c0)).
Proof.
  intros c [r ct]. unfold visit_msg. simpl.
  destruct (String.eqb r "user"); [|done].
  destruct ct as [s|items]; [done|].
  rewrite (for_each_shifted c0 _ _ (visit_item_shifted k c0)).
  by destruct (for_each (visit_item (k - Z.of_nat c0)) c items).
Qed.

(** Eviction goes by recency of turns: when the newest turn holds no more
    images than the retention count, it stays as it is, and the turns
    before it are evicted with what is left of the count. *)
Theorem truncate_old_images_newest_turn (messages : list Message)
    (msg : Message) (keep_recent : Z) :
  (Z.of_nat (images_of_msg msg) ≤ keep_recent)%Z →
  _truncate_old_images (messages ++ [msg]) keep_recent
  = (_truncate_old_images messages (keep_recent - Z.of_nat (images_of_msg msg))
     ++ [msg])%list.
Proof.
  intros Hc. unfold _truncate_old_images.
  rewrite reverse_app. simpl.
  rewrite (visit_msg_below keep_recent 0 msg) by (simpl; lia). simpl.
  pose proof (for_each_shifted (images_of_msg msg) _ _
                (visit_msg_shifted keep_recent (images_of_msg msg)) 0
                (reverse messages)) as Hs.
  rewrite Nat.add_0_r in Hs. rewrite Hs.
  destruct (for_each (visit_msg (keep_recent - Z.of_nat (images_of_msg msg))) 0
              (reverse messages)) as [c l].
  simpl. by rewrite reverse_cons.
Qed.

Lemma truncate_old_images_newest_turn_witness :
  _truncate_old_images
    (four_clicks ++ [tool_results_turn [click_result "t5" "Clicked" "shot5"]]) 3
  = (_truncate_old_images four_clicks 2
     ++ [tool_results_turn [click_result "t5" "Clicked" "shot5"]])%list.
Proof.
  apply (truncate_old_images_newest_turn four_clicks
           (tool_results_turn [click_result "t5" "Clicked" "shot5"]) 3).
  vm_compute. discriminate.
Defined.

(** ** More on the progress store *)

Lemma grows_refl p : grows p p.
Proof. unfold grows. by repeat split. Qed.

Lemma grows_trans p1 p2 p3 : grows p1 p2 → grows p2 p3 → grows p1 p3.
Proof.
  intros (Hi & Hw & Ha & Hn) (Hi' & Hw' & Ha' & Hn'). unfold grows.
  repeat split; [congruence|tauto|lia|].
  intros Hne. rewrite Hn' by (by rewrite Hn). by apply Hn.
Qed.

Lemma after_call_grows id c p p' : after_call id c p p' → grows p p'.
Proof.
  destruct c as [id' name|id'|id' passed total correct]; simpl; intros H.
  - subst p'. destruct (decide _) as [[_ Hn]|_]; [|apply grows_refl].
    unfold grows. simpl. repeat split; try done; lia.
  - subst p'. destruct (decide _); [|apply grows_refl].
    unfold grows. simpl. repeat split; try done; lia.
  - destruct (decide _); [|subst; apply grows_refl].
    destruct H as [now ->]. unfold grows. simpl. repeat split; try done; lia.
Qed.

(** Records only grow: through any sequence of bookkeeping calls, a module
    that the store holds stays in the store with the same identifier; once
    watched it stays watched, its attempts never go down and a name that
    is not empty stays. *)
Theorem records_only_grow (w : World) (calls : list Call) (id : string)
    (p : ModuleProgress) :
  modules w !! id = Some p →
  ∃ p', modules (run_calls w calls) !! id = Some p' ∧ grows p p'.
Proof.
  revert w p. induction calls as [|c calls IH]; intros w p Hp; simpl.
  - exists p. split; [done|apply grows_refl].
  - destruct (call_after id c w p Hp) as (p1 & Hp1 & Hafter).
    destruct (IH _ _ Hp1) as (p' & Hp' & Hg). exists p'. split; [done|].
    eapply grows_trans; [|done]. by eapply after_call_grows.
Qed.

Lemma records_only_grow_witness :
  ∃ p', modules (run_calls (exec (mark_video_watched "m1") (boot Missing))
                   [ RecordAttempt "m1" false 5 2; GetOrCreate "m1" "Other";
                     RecordAttempt "m2" true 3 3 ]) !! "m1" = Some p'
        ∧ grows (set_video_watched true (new_module "m1" "m1")) p'.
Proof.
  apply (records_only_grow (exec (mark_video_watched "m1") (boot Missing))).
  reflexivity.
Defined.

Lemma call_absent id c w :
  target c ≠ id → modules w !! id = None →
  modules (exec (call c) w) !! id = None.
Proof.
  intros Hne Hnone. destruct c as [id' name|id'|id' passed total correct];
    simpl in Hne.
  - by rewrite call_get_or_create, get_or_create_module_other.
  - unfold call. rewrite mark_video_watched_modules.
    by rewrite lookup_alter_ne, get_or_create_module_other.
  - unfold call.
    destruct (record_assessment_attempt_modules id' passed total correct w)
      as [now ->].
    by rewrite lookup_alter_ne, get_or_create_module_other.
Qed.

Lemma call_other id c w :
  target c ≠ id → modules (exec (call c) w) !! id = modules w !! id.
Proof.
  intros Hne. destruct (modules w !! id) as [p|] eqn:Hp.
  - destruct (call_after id c w p Hp) as (p' & -> & Hafter). f_equal.
    destruct c as [id' name|id'|id' passed total correct]; simpl in *.
    + rewrite decide_False in Hafter by tauto. done.
    + by rewrite decide_False in Hafter.
    + by rewrite decide_False in Hafter.
  - by apply call_absent.
Qed.

(** A bookkeeping call touches one module only: the records of all the
    modules that a sequence of calls does not name are, after the
    sequence, what they were before, present or absent. *)
Theorem calls_leave_other_modules (w : World) (calls : list Call) (id : string) :
  Forall (λ c, target c ≠ id) calls →
  modules (run_calls w calls) !! id = modules w !! id.
Proof.
  revert w. induction calls as [|c calls IH]; intros w Hall; [done|].
  inversion Hall as [|? ? Hc Hcalls]; subst. simpl.
  rewrite IH by done. by apply call_other.
Qed.

Lemma calls_leave_other_modules_witness :
  modules (run_calls (exec (mark_video_watched "m1") (boot Missing))
             [ RecordAttempt "m2" false 5 2; MarkWatched "m3" ]) !! "m1"
  = modules (exec (mark_video_watched "m1") (boot Missing)) !! "m1".
Proof.
  apply calls_leave_other_modules. repeat constructor; discriminate.
Defined.

Lemma call_well_keyed c w :
  well_keyed (modules w) → well_keyed (modules (exec (call c) w)).
Proof.
  intros Hw k p' Hp'.
  destruct (modules w !! k) as [p|] eqn:Hp.
  - destruct (call_after k c w p Hp) as (p1 & Hp1 & Hafter).
    rewrite Hp1 in Hp'. simplify_eq.
    destruct (after_call_grows _ _ _ _ Hafter) as [-> _]. by apply Hw.
  - destruct (decide (target c = k)) as [Heq|Hne];
      [|by rewrite (call_absent k c w Hne Hp) in Hp'].
    destruct c as [id' name|id'|id' passed total correct]; simpl in Heq; subst.
    + rewrite call_get_or_create, (get_or_create_module_created _ _ _ Hp) in Hp'.
      by simplify_eq.
    + unfold call in Hp'. rewrite mark_video_watched_modules in Hp'.
      rewrite lookup_alter_eq, (get_or_create_module_created _ _ _ Hp) in Hp'.
      simpl in Hp'. by simplify_eq.
    + unfold call in Hp'.
      destruct (record_assessment_attempt_modules k passed total correct w)
        as [now Hm]. rewrite Hm in Hp'.
      rewrite lookup_alter_eq, (get_or_create_module_created _ _ _ Hp) in Hp'.
      simpl in Hp'. by simplify_eq.
Qed.

(** Every record sits under its own identifier: a store whose keys are
    the [module_id] of their records, as the empty store of a first start
    is, stays so through any sequence of bookkeeping calls. *)
Theorem store_stays_well_keyed (w : World) (calls : list Call) :
  well_keyed (modules w) → well_keyed (modules (run_calls w calls)).
Proof.
  revert w. induction calls as [|c calls IH]; intros w Hw; [done|].
  simpl. by apply IH, call_well_keyed.
Qed.

Lemma store_stays_well_keyed_witness :
  well_keyed (modules (run_calls (boot Missing)
                         [ MarkWatched "m1"; RecordAttempt "m2" true 5 5;
                           GetOrCreate "m3" "Ladders" ])).
Proof.
  apply store_stays_well_keyed. intros k p Hp. simpl in Hp.
  by rewrite lookup_empty in Hp.
Defined.

Lemma restart_persisted w :
  persisted w → (State.__init__
                   (with_actions_cache (λ _, ∅) (with_confusion_log (λ _, []) w))).1
                = inr tt
                ∧ modules (restart w) = modules w.
Proof.
  intros [now Hf]. unfold restart, exec, State.__init__, mbind, M_bind, bind,
    modify, datetime_now, gets. simpl.
  match goal with
  | |- (_load ?w0).1 = _ ∧ modules (_load ?w0).2 = _ =>
      apply (load_saved_document (modules w) now w0)
  end.
  exact Hf.
Qed.

Lemma restart_of_file w w' :
  state_file w' = state_file w → modules (restart w') = modules (restart w).
Proof.
  intros Hf. unfold restart, exec, State.__init__, _load, try_except, read_json,
    lift, logger, raise, mbind, M_bind, bind, gets, modify, datetime_now. simpl.
  rewrite Hf. destruct (state_file w) as [|t|doc]; simpl; [done|done|].
  destruct (as_dict doc) as [e|d]; simpl; [by destruct e|].
  destruct (match dict_get d "modules" with
            | Some v => as_dict v
            | None => inr []
            end) as [e|items]; simpl; [by destruct e|].
  destruct (modules_of_items items ∅) as [e|ms]; simpl; [by destruct e|done].
Qed.

Lemma call_recovered c w :
  reliable w → modules (restart w) = modules w →
  modules (restart (exec (call c) w)) = modules (exec (call c) w).
Proof.
  intros Hw Hr. destruct (call_persisted c w Hw) as [[Hm Hf]|Hp].
  - by rewrite (restart_of_file w _ Hf), Hm.
  - by apply restart_persisted.
Qed.

(** Nothing is lost by a stop of the process, when the disk takes the
    writes: after marking a video as watched or recording an attempt, and
    after any sequence of bookkeeping calls on a store that a new process
    would have recovered before them, a new process started on the file
    holds exactly the store that the old one held. *)
Theorem restart_recovers_store (w : World) :
  reliable w →
  (∀ id, modules (restart (exec (mark_video_watched id) w))
         = modules (exec (mark_video_watched id) w))
  ∧ (∀ id passed total correct,
       modules (restart (exec (record_assessment_attempt id passed total correct) w))
       = modules (exec (record_assessment_attempt id passed total correct) w))
  ∧ (∀ calls, modules (restart w) = modules w →
       modules (restart (run_calls w calls)) = modules (run_calls w calls)).
Proof.
  intros Hw. split; [|split].
  - intros id. by apply restart_persisted, mark_video_watched_persisted.
  - intros id passed total correct.
    by apply restart_persisted, record_assessment_attempt_persisted.
  - intros calls. revert w Hw.
    induction calls as [|c calls IH]; intros w Hw Hr; [done|].
    simpl. apply IH; [by apply call_reliable|by apply call_recovered].
Qed.

Lemma restart_recovers_store_witness :
  modules (restart (run_calls (exec (mark_video_watched "m1") (boot Missing))
                      [ GetOrCreate "m2" "Ladders"; GetOrCreate "m2" "Other" ]))
  = modules (run_calls (exec (mark_video_watched "m1") (boot Missing))
               [ GetOrCreate "m2" "Ladders"; GetOrCreate "m2" "Other" ]).
Proof.
  apply (proj2 (proj2 (restart_recovers_store
                         (exec (mark_video_watched "m1") (boot Missing))
                         (λ n, eq_refl)))).
  exact (proj1 (restart_recovers_store (boot Missing) (λ n, eq_refl)) "m1").
Defined.

Lemma from_dict_error v e : from_dict v = inl e → e = TypeError.
Proof.
  destruct v as [| | | | |kw]; simpl; try (by intros [= <-]).
  destruct (forallb _ _); [|by intros [= <-]].
  unfold keyword, mbind, result_bind, as_str, as_bool, as_int, as_optional_str.
  repeat match goal with
         | |- context [dict_get kw ?k] => destruct (dict_get kw k) as [[| | | | |]|]
         end; simpl; by intros [= <-].
Qed.

Lemma from_dict_malformed v : malformed v → from_dict v = inl TypeError.
Proof.
  intros Hm. destruct (from_dict v) as [e|p] eqn:Hv;
    [by rewrite (from_dict_error _ _ Hv)|]. exfalso.
  destruct v as [| | | | |kw]; simpl in *; try done.
  destruct (forallb _ _) eqn:Hall; [|done].
  destruct Hm as [(k & Hin & Hk)|[Hid|Hname]].
  - rewrite forallb_forall in Hall. apply list_elem_of_In, Hall in Hin.
    by apply bool_decide_eq_true in Hin.
  - unfold keyword in Hv. by rewrite Hid in Hv.
  - unfold mbind, result_bind in Hv.
    destruct (keyword kw "module_id" as_str None); [done|].
    unfold keyword in Hv at 1. by rewrite Hname in Hv.
Qed.

Lemma modules_of_items_malformed items acc k v :
  (k, v) ∈ items → malformed v → modules_of_items items acc = inl TypeError.
Proof.
  intros Hin Hm. revert acc.
  induction items as [|[k' v'] items IH]; intros acc; [by apply elem_of_nil in Hin|].
  simpl. apply elem_of_cons in Hin as [Heq|Hin].
  - simplify_eq. by rewrite from_dict_malformed.
  - destruct (from_dict v') as [e|p] eqn:Hv; [by rewrite (from_dict_error _ _ Hv)|].
    by apply IH.
Qed.

(** Loading is all or nothing: when one record of the stored modules is
    not a dictionary, has a key that is no field of [ModuleProgress] or
    lacks [module_id] or [module_name], the whole file is given up; the
    new process starts with an empty store and logs the error, whatever
    the other records are. *)
Theorem load_is_all_or_nothing (w : World) (d items : list (string * json))
    (k : string) (v : json) :
  state_file w = Document (JObj d) →
  dict_get d "modules" = Some (JObj items) →
  (k, v) ∈ items → malformed v →
  (State.__init__ w).1 = inr tt
  ∧ modules (exec State.__init__ w) = ∅
  ∧ last (log (exec State.__init__ w)) = Some (Error "Error loading state: " TypeError).
Proof.
  intros Hf Hd Hin Hm. split; [apply init_returns|].
  unfold exec, State.__init__, _load, try_except, read_json, lift, logger,
    mbind, M_bind, bind, modify, datetime_now, gets. simpl.
  rewrite Hf. simpl. rewrite Hd. simpl.
  rewrite (modules_of_items_malformed items ∅ k v Hin Hm). simpl.
  split; [done|]. by rewrite last_snoc.
Qed.

Lemma load_is_all_or_nothing_witness :
  let good := to_dict (new_module "m1" "Ladders") in
  let bad := JObj [ ("module_id", JStr "m2"); ("module_name", JStr "Fire");
                    ("score", JInt 3) ] in
  let d := [ ("modules", JObj [ ("m1", good); ("m2", bad) ]);
             ("last_saved", JStr "t0") ] in
  modules (exec State.__init__ (boot (Document (JObj d)))) = ∅
  ∧ last (log (exec State.__init__ (boot (Document (JObj d)))))
    = Some (Error "Error loading state: " TypeError).
Proof.
  intros good bad d.
  refine (proj2 (load_is_all_or_nothing (boot (Document (JObj d))) d
                   [ ("m1", good); ("m2", bad) ] "m2" bad eq_refl eq_refl _ _)).
  - apply elem_of_cons. right. apply elem_of_cons. by left.
  - left. exists "score". split;
      [|exact (proj1 (bool_decide_eq_false ("score" ∈ field_names)) eq_refl)].
    simpl. apply elem_of_cons. right. apply elem_of_cons. right.
    apply elem_of_cons. by left.
Defined.

(** A file that parses but is no store: a document that is not a
    dictionary, or whose ["modules"] is not one, is logged as an error and
    leaves the new process with an empty store; a dictionary without
    ["modules"] is taken as a store without modules and logged as a
    loading of 0 modules. *)
Theorem load_of_other_documents (w : World) (doc : json) :
  state_file w = Document doc →
  ((∀ d, doc ≠ JObj d) →
     modules (exec State.__init__ w) = ∅
     ∧ last (log (exec State.__init__ w))
       = Some (Error "Error loading state: " AttributeError))
  ∧ (∀ d v, doc = JObj d → dict_get d "modules" = Some v → (∀ items, v ≠ JObj items) →
       modules (exec State.__init__ w) = ∅
       ∧ last (log (exec State.__init__ w))
         = Some (Error "Error loading state: " AttributeError))
  ∧ (∀ d, doc = JObj d → dict_get d "modules" = None →
       modules (exec State.__init__ w) = ∅
       ∧ last (log (exec State.__init__ w))
         = Some (Info "Loaded progress for 0 modules")).
Proof.
  intros Hf.
  unfold exec, State.__init__, _load, try_except, read_json, lift, logger,
    mbind, M_bind, bind, modify, datetime_now, gets. simpl.
  rewrite Hf. simpl. split; [|split].
  - intros Hd. destruct doc as [| | | | |d]; simpl;
      try (split; [done|by rewrite last_snoc]).
    by destruct (Hd d).
  - intros d v -> Hv Hitems. simpl. rewrite Hv.
    destruct v as [| | | | |items]; simpl;
      try (split; [done|by rewrite last_snoc]).
    by destruct (Hitems items).
  - intros d -> Hnone. simpl. rewrite Hnone. simpl.
    split; [done|by rewrite last_snoc].
Qed.

Lemma load_of_other_documents_witness :
  (modules (exec State.__init__ (boot (Document (JArr [])))) = ∅
   ∧ last (log (exec State.__init__ (boot (Document (JArr [])))))
     = Some (Error "Error loading state: " AttributeError))
  ∧ (modules (exec State.__init__
                (boot (Document (JObj [("last_saved", JStr "t0")])))) = ∅
     ∧ last (log (exec State.__init__
                    (boot (Document (JObj [("last_saved", JStr "t0")])))))
       = Some (Info "Loaded progress for 0 modules")).
Proof.
  split.
  - apply (proj1 (load_of_other_documents (boot (Document (JArr []))) (JArr [])
                    eq_refl)).
    discriminate.
  - apply (proj2 (proj2 (load_of_other_documents
                           (boot (Document (JObj [("last_saved", JStr "t0")])))
                           (JObj [("last_saved", JStr "t0")]) eq_refl))
             [("last_saved", JStr "t0")]); reflexivity.
Defined.

(** The modules to retry are the watched ones among the incomplete:
    [get_incomplete_modules] lists the modules whose assessment has not
    passed, and a module is in [get_failed_assessments] exactly when it is
    in that list as watched, with the same name and attempts. *)
Theorem failed_are_the_watched_incomplete (w : World) :
  (∀ entry,
     entry ∈ get_incomplete_modules w ↔
     ∃ id p, modules w !! id = Some p ∧ assessment_passed p = false
             ∧ entry = {| incomplete_id := id; incomplete_name := module_name p;
                          incomplete_video_watched := video_watched p;
                          incomplete_attempts := assessment_attempts p |})
  ∧ (∀ id name attempts,
       {| failed_id := id; failed_name := name; failed_attempts := attempts |}
         ∈ get_failed_assessments w
       ↔ {| incomplete_id := id; incomplete_name := name;
            incomplete_video_watched := true; incomplete_attempts := attempts |}
           ∈ get_incomplete_modules w).
Proof.
  assert (∀ entry,
     entry ∈ get_incomplete_modules w ↔
     ∃ id p, modules w !! id = Some p ∧ assessment_passed p = false
             ∧ entry = {| incomplete_id := id; incomplete_name := module_name p;
                          incomplete_video_watched := video_watched p;
                          incomplete_attempts := assessment_attempts p |}) as Hinc.
  { intros entry. unfold get_incomplete_modules. rewrite list_elem_of_fmap. split.
    - intros ([id p] & -> & Hin). apply list_elem_of_filter in Hin as [Hf Hin].
      apply elem_of_map_to_list in Hin. simpl in *.
      exists id, p. repeat split; try done. by destruct (assessment_passed p).
    - intros (id & p & Hl & Hp & ->). exists (id, p). split; [done|].
      apply list_elem_of_filter. split; [|by apply elem_of_map_to_list].
      simpl. by rewrite Hp. }
  split; [done|]. intros id name attempts. rewrite Hinc.
  unfold get_failed_assessments. rewrite list_elem_of_fmap. split.
  - intros ([id' p] & Heq & Hin). apply list_elem_of_filter in Hin as [Hf Hin].
    apply elem_of_map_to_list in Hin. simpl in *. simplify_eq.
    apply andb_prop_elim in Hf as [Hw Hp].
    apply Is_true_true in Hw. apply negb_prop_elim in Hp.
    exists id', p. rewrite Hw. repeat split; try done.
    by destruct (assessment_passed p).
  - intros (id' & p & Hl & Hp & Heq). simplify_eq. exists (id', p).
    split; [done|]. apply list_elem_of_filter.
    split; [|by apply elem_of_map_to_list]. simpl.
    match goal with H : true = video_watched p |- _ => rewrite <- H end.
    by rewrite Hp.
Qed.

Lemma failed_are_the_watched_incomplete_witness :
  let w := run_calls (boot Missing)
             [ MarkWatched "m1"; RecordAttempt "m1" false 5 2 ] in
  {| incomplete_id := "m1"; incomplete_name := "m1";
     incomplete_video_watched := true; incomplete_attempts := 1 |}
    ∈ get_incomplete_modules w.
Proof.
  intros w.
  apply (proj1 (proj2 (failed_are_the_watched_incomplete w) "m1" "m1" 1%Z)).
  vm_compute. left.
Defined.

(** ** More on the bookkeeping dispatcher *)

Ltac step :=
  unfold exec, _execute_custom_tool, take_screenshot, click, sleep, Agent.get,
    logger, datetime_now, mbind, M_bind, mret, M_ret, bind, ret, gets, modify;
  simpl.

Lemma eqb_name (a b : string) : a ≠ b → String.eqb a b = false.
Proof. apply String.eqb_neq. Qed.

Lemma execute_unknown (tool_name : string) (input : ToolInput) (w : World) :
  tool_name ∉ bookkeeping_tools →
  _execute_custom_tool tool_name input w = (inr ("Unknown tool: " +:+ tool_name), w).
Proof.
  intros Hn. unfold bookkeeping_tools in Hn.
  repeat (apply not_elem_of_cons in Hn as [? Hn]).
  unfold _execute_custom_tool. by rewrite !eqb_name.
Qed.

(** A name that the dispatcher does not know changes nothing: the answer
    is the text ["Unknown tool: "] with the name, and the world is what it
    was. *)
Theorem unknown_tool_changes_nothing (tool_name : string) (input : ToolInput)
    (w : World) :
  tool_name ∉ bookkeeping_tools →
  _execute_custom_tool tool_name input w = (inr ("Unknown tool: " +:+ tool_name), w).
Proof. apply execute_unknown. Qed.

Lemma unknown_tool_changes_nothing_witness :
  _execute_custom_tool "computer" no_input (boot Missing)
  = (inr "Unknown tool: computer", boot Missing).
Proof.
  apply (unknown_tool_changes_nothing "computer" no_input (boot Missing)).
  exact (proj1 (bool_decide_eq_false ("computer" ∈ bookkeeping_tools)) eq_refl).
Defined.

Lemma mark_tool_run input w :
  let id := Agent.get (in_module_id input) "unknown" in
  let name := Agent.get (in_module_name input) id in
  _execute_custom_tool "mark_video_watched" input w
  = (inr ("Video marked as watched for module: " +:+ name),
     exec (mark_video_watched id) (exec (get_or_create_module id name) w)).
Proof.
  intros id name. unfold exec, _execute_custom_tool, mbind, M_bind, bind. simpl.
  fold id. fold name.
  destruct (get_or_create_module_returns id name w) as (p & Hp & _).
  destruct (get_or_create_module id name w) as [[e|p'] w1]; [done|]. simpl.
  pose proof (mark_video_watched_returns id w1) as Hret.
  by destruct (mark_video_watched id w1) as [[e|[]] w2].
Qed.

Lemma record_tool_run input w :
  let id := Agent.get (in_module_id input) "unknown" in
  let passed := Agent.get (in_passed input) false in
  let total := Agent.get (in_questions_total input) 0%Z in
  let correct := Agent.get (in_questions_correct input) 0%Z in
  _execute_custom_tool "record_assessment_result" input w
  = (inr ("Assessment result recorded: "
          +:+ (if passed then "PASSED" else "FAILED")
          +:+ " (" +:+ pretty correct +:+ "/" +:+ pretty total +:+ ")"),
     exec (record_assessment_attempt id passed total correct) w).
Proof.
  intros id passed total correct.
  unfold exec, _execute_custom_tool, mbind, M_bind, bind. simpl.
  fold id. fold passed. fold total. fold correct.
  pose proof (record_assessment_attempt_returns id passed total correct w) as Hret.
  by destruct (record_assessment_attempt id passed total correct w)
    as [[e|[]] w2].
Qed.



Lemma get_or_create_module_same_agent id name w :
  same_agent w (exec (get_or_create_module id name) w).
Proof.
  unfold same_agent. run. destruct (modules w !! id) as [p|]; simpl; [|by saved].
  destruct (truthy name && negb (truthy (module_name p))); simpl; [by saved|done].
Qed.

Lemma mark_video_watched_same_agent id w :
  same_agent w (exec (mark_video_watched id) w).
Proof.
  destruct (get_or_create_module_eq id "" w) as [p Hp].
  pose proof (get_or_create_module_same_agent id "" w) as Hsame.
  unfold same_agent in *.
  unfold exec at 1 2 3 4, mark_video_watched, logger, mbind, M_bind, bind, modify.
  rewrite Hp. simpl. by saved.
Qed.

Lemma record_assessment_attempt_same_agent id passed total correct w :
  same_agent w (exec (record_assessment_attempt id passed total correct) w).
Proof.
  destruct (get_or_create_module_eq id "" w) as [p Hp].
  pose proof (get_or_create_module_same_agent id "" w) as Hsame.
  unfold same_agent in *.
  unfold exec at 1 2 3 4, record_assessment_attempt, logger, datetime_now,
    mbind, M_bind, bind, modify, gets.
  rewrite Hp. simpl. by saved.
Qed.

Lemma execute_custom_tool_frame (tool_name : string) (input : ToolInput)
    (w : World) :
  let w' := exec (_execute_custom_tool tool_name input) w in
  (tool_name ≠ "mark_video_watched" → tool_name ≠ "record_assessment_result" →
     modules w' = modules w ∧ state_file w' = state_file w)
  ∧ (tool_name ≠ "cache_action" → actions_cache w' = actions_cache w)
  ∧ (tool_name ≠ "note_confusion" → confusion_log w' = confusion_log w)
  ∧ (tool_name ≠ "use_cached_action" →
       ui_events w' = ui_events w ∧ captures w' = captures w).
Proof.
  intros w'. subst w'.
  destruct (decide (tool_name = "mark_video_watched")) as [->|H1].
  { unfold exec. rewrite mark_tool_run. simpl.
    set (id := Agent.get (in_module_id input) "unknown").
    set (name := Agent.get (in_module_name input) id).
    destruct (get_or_create_module_same_agent id name w) as (Ha & Hc & Hu & Hs).
    destruct (mark_video_watched_same_agent id
                (exec (get_or_create_module id name) w)) as (Ha' & Hc' & Hu' & Hs').
    repeat split; try done; congruence. }
  destruct (decide (tool_name = "record_assessment_result")) as [->|H2].
  { unfold exec. rewrite record_tool_run. simpl.
    destruct (record_assessment_attempt_same_agent
                (Agent.get (in_module_id input) "unknown")
                (Agent.get (in_passed input) false)
                (Agent.get (in_questions_total input) 0%Z)
                (Agent.get (in_questions_correct input) 0%Z) w)
      as (Ha & Hc & Hu & Hs).
    repeat split; try done. }
  unfold exec, _execute_custom_tool. rewrite !eqb_name by done.
  destruct (String.eqb tool_name "get_progress"); [done|].
  destruct (String.eqb tool_name "get_failed_assessments").
  { step. by destruct (get_failed_assessments w). }
  destruct (String.eqb tool_name "cache_action") eqn:H5.
  { apply String.eqb_eq in H5 as ->. step. by destruct (truthy _). }
  destruct (String.eqb tool_name "use_cached_action") eqn:H6.
  { apply String.eqb_eq in H6 as ->. step.
    by destruct (actions_cache w !! _) as [[x y]|]. }
  destruct (String.eqb tool_name "list_cached_actions").
  { step. by destruct (map_to_list (actions_cache w)). }
  destruct (String.eqb tool_name "note_confusion") eqn:H8; [|done].
  apply String.eqb_eq in H8 as ->. by step.
Qed.

(** Each bookkeeping tool keeps to its own part of the world: the store
    and its file change under no tool but [mark_video_watched] and
    [record_assessment_result], the action cache under none but
    [cache_action], the confusion log under none but [note_confusion], and
    no tool but [use_cached_action] clicks or captures the screen. *)
Theorem tools_keep_to_their_part (tool_name : string) (input : ToolInput)
    (w : World) :
  let w' := exec (_execute_custom_tool tool_name input) w in
  (tool_name ≠ "mark_video_watched" → tool_name ≠ "record_assessment_result" →
     modules w' = modules w ∧ state_file w' = state_file w)
  ∧ (tool_name ≠ "cache_action" → actions_cache w' = actions_cache w)
  ∧ (tool_name ≠ "note_confusion" → confusion_log w' = confusion_log w)
  ∧ (tool_name ≠ "use_cached_action" →
       ui_events w' = ui_events w ∧ captures w' = captures w).
Proof. apply execute_custom_tool_frame. Qed.

Lemma tools_keep_to_their_part_witness :
  let w := exec (mark_video_watched "m1") (boot Missing) in
  modules (exec (_execute_custom_tool "note_confusion" no_input) w) = modules w
  ∧ state_file (exec (_execute_custom_tool "note_confusion" no_input) w)
    = state_file w.
Proof.
  intros w.
  apply (proj1 (tools_keep_to_their_part "note_confusion" no_input w));
    discriminate.
Defined.

(** A cached action is replayed where it was cached: after [cache_action]
    with a name that is not empty, the cache holds the given coordinates
    under that name, whatever it held there before and leaving the other
    names alone, and [use_cached_action] with the name clicks at these
    coordinates, waits and captures the screen once. *)
Theorem cached_action_is_replayed (w : World) (cache_in use_in : ToolInput)
    (action_name : string) :
  in_action_name cache_in = Some action_name →
  in_action_name use_in = Some action_name →
  action_name ≠ "" →
  let x := default 0%Z (in_x cache_in) in
  let y := default 0%Z (in_y cache_in) in
  let w1 := exec (_execute_custom_tool "cache_action" cache_in) w in
  let w2 := exec (_execute_custom_tool "use_cached_action" use_in) w1 in
  actions_cache w1 = <[action_name := (x, y)]> (actions_cache w)
  ∧ ui_events w2 = (ui_events w ++ [Click x y; Sleep 500; Screencapture])%list
  ∧ actions_cache w2 = actions_cache w1.
Proof.
  intros Hc Hu Hne x y w1 w2. subst w1 w2 x y. step. rewrite Hc. simpl.
  apply truthy_true in Hne. rewrite Hne. simpl. rewrite Hu. simpl.
  rewrite lookup_insert_eq. simpl. split; [done|]. split; [|done].
  by rewrite <- !(assoc_L (++)).
Qed.

Lemma cached_action_is_replayed_witness :
  let w := exec (_execute_custom_tool "cache_action"
                   (action_input (Some "next") (Some 1%Z) (Some 2%Z)))
             (boot Missing) in
  ui_events (exec (_execute_custom_tool "use_cached_action"
                     (action_input (Some "next") None None))
               (exec (_execute_custom_tool "cache_action"
                        (action_input (Some "next") (Some 100%Z) (Some 200%Z))) w))
  = [Click 100 200; Sleep 500; Screencapture].
Proof.
  intros w.
  apply (proj1 (proj2 (cached_action_is_replayed w
                         (action_input (Some "next") (Some 100%Z) (Some 200%Z))
                         (action_input (Some "next") None None) "next"
                         eq_refl eq_refl ltac:(discriminate)))).
Defined.

(** Questions and refused requests leave the world as it is: the three
    tools that only report, a [cache_action] without a name and a
    [use_cached_action] with a name that is not cached return their text
    and change nothing; in particular a refused [use_cached_action] does
    not click. *)
Theorem queries_and_refusals_change_nothing (input : ToolInput) (w : World) :
  exec (_execute_custom_tool "get_progress" input) w = w
  ∧ exec (_execute_custom_tool "get_failed_assessments" input) w = w
  ∧ exec (_execute_custom_tool "list_cached_actions" input) w = w
  ∧ (default "" (in_action_name input) = "" →
       _execute_custom_tool "cache_action" input w
       = (inr "Error: action_name is required", w))
  ∧ (actions_cache w !! default "" (in_action_name input) = None →
       ∃ available,
         _execute_custom_tool "use_cached_action" input w
         = (inr ("Error: No cached action named '"
                 +:+ default "" (in_action_name input)
                 +:+ "'. Available: " +:+ available), w)).
Proof.
  split; [done|]. split; [step; by destruct (get_failed_assessments w)|].
  split; [step; by destruct (map_to_list (actions_cache w))|]. split.
  - intros Hn. step. by rewrite Hn.
  - intros Hn. step. rewrite Hn. by eexists.
Qed.

Lemma queries_and_refusals_change_nothing_witness :
  _execute_custom_tool "cache_action" no_input (boot Missing)
  = (inr "Error: action_name is required", boot Missing)
  ∧ ∃ available,
      _execute_custom_tool "use_cached_action"
        (action_input (Some "next") None None) (boot Missing)
      = (inr ("Error: No cached action named 'next'. Available: " +:+ available),
         boot Missing).
Proof.
  split.
  - exact (proj1 (proj2 (proj2 (proj2 (queries_and_refusals_change_nothing
                                          no_input (boot Missing))))) eq_refl).
  - exact (proj2 (proj2 (proj2 (proj2 (queries_and_refusals_change_nothing
                                          (action_input (Some "next") None None)
                                          (boot Missing))))) eq_refl).
Defined.

(** The confusion log only grows: whatever the tool, the entries that
    were in the log stay at their places; [note_confusion] adds one entry
    at the end, stamped with the time of the call, with the severity
    ["moderate"] when none is given and with any other severity as it is
    given. *)
Theorem confusion_log_only_grows (tool_name : string) (input : ToolInput)
    (w : World) :
  confusion_log w `prefix_of` confusion_log (exec (_execute_custom_tool tool_name input) w)
  ∧ confusion_log (exec (_execute_custom_tool "note_confusion" input) w)
    = (confusion_log w
       ++ [ {| c_timestamp := wall_clock w (ticks w);
               c_description := default "Unknown issue" (in_description input);
               c_location := default "Unknown location" (in_location input);
               c_severity := default "moderate" (in_severity input) |} ])%list.
Proof.
  split; [|done].
  destruct (decide (tool_name = "note_confusion")) as [->|Hn].
  - step. by apply prefix_app_r.
  - by rewrite (proj1 (proj2 (proj2 (execute_custom_tool_frame tool_name input w))) Hn).
Qed.

Lemma elem_of_failed w id :
  (∃ entry, entry ∈ get_failed_assessments w ∧ failed_id entry = id)
  ↔ ∃ p, modules w !! id = Some p
         ∧ video_watched p = true ∧ assessment_passed p = false.
Proof.
  unfold get_failed_assessments. split.
  - intros (entry & Hin & <-). apply list_elem_of_fmap in Hin as ([k p] & -> & Hin).
    apply list_elem_of_filter in Hin as [Hf Hin].
    apply elem_of_map_to_list in Hin. simpl in *.
    apply andb_prop_elim in Hf as [Hw Hp].
    apply Is_true_true in Hw. apply negb_prop_elim in Hp.
    exists p. repeat split; try done. by destruct (assessment_passed p).
  - intros (p & Hl & Hw & Hp).
    exists {| failed_id := id; failed_name := module_name p;
              failed_attempts := assessment_attempts p |}. split; [|done].
    apply list_elem_of_fmap. exists (id, p). split; [done|].
    apply list_elem_of_filter. split; [|by apply elem_of_map_to_list].
    simpl. by rewrite Hw, Hp.
Qed.

(** The tool [mark_video_watched] leaves the module watched: the module
    named by the input, or ["unknown"] when the input names none, is in
    the store afterwards with its video watched; when the disk takes the
    writes the file holds the entire store; a module that is new gets the
    given name, or its identifier when no name or an empty one is given;
    and unless its assessment has passed, the module is among the failed
    assessments. *)
Theorem mark_tool_marks (input : ToolInput) (w : World) :
  let id := default "unknown" (in_module_id input) in
  let w' := exec (_execute_custom_tool "mark_video_watched" input) w in
  ∃ p, modules w' !! id = Some p
       ∧ video_watched p = true
       ∧ (reliable w → on_file w')
       ∧ (modules w !! id = None →
            module_name p = match in_module_name input with
                            | Some name => if decide (name = "") then id else name
                            | None => id
                            end)
       ∧ (assessment_passed p = false →
            ∃ entry, entry ∈ get_failed_assessments w' ∧ failed_id entry = id).
Proof.
  intros id w'. subst w'. unfold exec at 1 2 3. rewrite mark_tool_run. simpl.
  fold id. set (name := Agent.get (in_module_name input) id).
  set (w1 := exec (get_or_create_module id name) w).
  destruct (get_or_create_module_returns id name w) as (p1 & _ & Hp1).
  fold w1 in Hp1.
  assert (modules (exec (mark_video_watched id) w1) !! id
          = Some (set_video_watched true p1)) as Hp.
  { rewrite mark_video_watched_modules, lookup_alter_eq.
    by rewrite (get_or_create_module_default _ _ _ Hp1), Hp1. }
  exists (set_video_watched true p1). split; [done|]. split; [done|].
  split.
  { intros Hw. apply persisted_on_file, mark_video_watched_persisted.
    intros n. unfold w1. by rewrite get_or_create_module_disk. }
  split.
  - intros Hnone. simpl. unfold w1 in Hp1.
    rewrite (get_or_create_module_created _ _ _ Hnone) in Hp1. simplify_eq. simpl.
    unfold or_else, name, Agent.get.
    destruct (in_module_name input) as [n|]; simpl.
    + destruct (truthy n) eqn:Hn.
      * apply truthy_true in Hn. by rewrite decide_False.
      * apply truthy_false in Hn. by rewrite decide_True.
    + destruct (truthy id) eqn:Hn; [done|]. by apply truthy_false in Hn.
  - intros Hpass. apply elem_of_failed. by eexists.
Qed.

Lemma mark_tool_marks_witness :
  ∃ p, modules (exec (_execute_custom_tool "mark_video_watched" no_input)
                  (boot Missing)) !! "unknown" = Some p
       ∧ video_watched p = true
       ∧ on_file (exec (_execute_custom_tool "mark_video_watched" no_input)
                    (boot Missing))
       ∧ module_name p = "unknown"
       ∧ ∃ entry,
           entry ∈ get_failed_assessments
                     (exec (_execute_custom_tool "mark_video_watched" no_input)
                        (boot Missing))
           ∧ failed_id entry = "unknown".
Proof.
  destruct (mark_tool_marks no_input (boot Missing))
    as (p & Hp & Hw & Hfile & Hname & Hfailed).
  exists p. split; [exact Hp|]. split; [exact Hw|].
  split; [exact (Hfile (λ n, eq_refl))|]. split; [exact (Hname eq_refl)|].
  apply Hfailed. vm_compute in Hp. by simplify_eq.
Defined.

(** A failed result is offered for retry only after the video was marked:
    after [record_assessment_result], the module of the input is among
    the failed assessments exactly when the result is a failure and the
    store already held the module as watched. *)
Theorem record_tool_offers_retry (input : ToolInput) (w : World) :
  let id := default "unknown" (in_module_id input) in
  let passed := default false (in_passed input) in
  let w' := exec (_execute_custom_tool "record_assessment_result" input) w in
  (∃ entry, entry ∈ get_failed_assessments w' ∧ failed_id entry = id)
  ↔ passed = false ∧ ∃ p, modules w !! id = Some p ∧ video_watched p = true.
Proof.
  intros id passed w'. subst w'.
  assert (exec (_execute_custom_tool "record_assessment_result" input) w
          = exec (record_assessment_attempt id passed
                    (Agent.get (in_questions_total input) 0%Z)
                    (Agent.get (in_questions_correct input) 0%Z)) w) as ->
      by (unfold exec at 1; by rewrite record_tool_run).
  rewrite elem_of_failed.
  destruct (record_assessment_attempt_modules id passed
              (Agent.get (in_questions_total input) 0%Z)
              (Agent.get (in_questions_correct input) 0%Z) w) as [now ->].
  rewrite lookup_alter_eq.
  destruct (modules w !! id) as [p|] eqn:Hp.
  - rewrite (get_or_create_module_default _ _ _ Hp), Hp. simpl. split.
    + intros (p' & Heq & Hw & Hpass). simplify_eq. simpl in *. eauto.
    + intros (Hpass & p' & Heq & Hw). simplify_eq. eexists. by repeat split.
  - rewrite (get_or_create_module_created _ _ _ Hp). simpl. split.
    + intros (p' & Heq & Hw & Hpass). by simplify_eq.
    + by intros (_ & p' & Heq & _).
Qed.

Lemma record_tool_offers_retry_witness :
  ¬ ∃ entry,
      entry ∈ get_failed_assessments
                (exec (_execute_custom_tool "record_assessment_result" no_input)
                   (boot Missing))
      ∧ failed_id entry = "unknown".
Proof.
  intros H.
  apply (proj1 (record_tool_offers_retry no_input (boot Missing))) in H
    as (_ & p & Hp & _).
  discriminate Hp.
Defined.

Lemma first_char_app a b : a ≠ "" → first_char (a +:+ b) = first_char a ∧ a +:+ b ≠ "".
Proof. by destruct a. Qed.

Lemma foldl_first_char {A : Type} (g : string → A → string) init l :
  (∀ r i, r ≠ "" → first_char (g r i) = first_char r ∧ g r i ≠ "") →
  init ≠ "" → first_char (foldl g init l) = first_char init.
Proof.
  intros Hg. revert init. induction l as [|x l IH]; intros init Hi; [done|].
  simpl. destruct (Hg init x Hi) as [Hc Hne]. by rewrite IH.
Qed.

Lemma known_tool_answer tool_name input w text :
  tool_name ∈ bookkeeping_tools →
  (_execute_custom_tool tool_name input w).1 = inr text →
  first_char text ≠ first_char "Unknown tool: ".
Proof.
  unfold bookkeeping_tools. intros Hin.
  repeat (apply elem_of_cons in Hin as [->|Hin]); [..|by apply elem_of_nil in Hin].
  - rewrite mark_tool_run. by intros [= <-].
  - rewrite record_tool_run. by intros [= <-].
  - step. intros [= <-]. unfold get_summary.
    by destruct (length (map_to_list (modules w)) =? 0)%nat.
  - step. destruct (get_failed_assessments w) as [|e l]; intros [= <-]; [done|].
    rewrite foldl_first_char; [done| |done].
    intros r i Hr. by apply first_char_app.
  - step. destruct (truthy _); by intros [= <-].
  - step. destruct (actions_cache w !! _) as [[x y]|]; by intros [= <-].
  - step. destruct (map_to_list (actions_cache w)) as [|e l];
      intros [= <-]; [done|].
    rewrite foldl_first_char; [done| |done].
    intros r i Hr. by apply first_char_app.
  - step. by intros [= <-].
Qed.

(** The catalogue and the dispatcher agree: the names that the dispatcher
    answers otherwise than with ["Unknown tool"] are the names of the
    tools that [get_tools] offers to the decision service, the [computer]
    tool apart, which the loop does not pass to this dispatcher. *)
Theorem catalogue_matches_dispatcher (width height : Z) (name : string) :
  (∃ t, t ∈ get_tools width height ∧ tool_name t = name ∧ name ≠ "computer")
  ↔ (∀ input w,
       (_execute_custom_tool name input w).1 ≠ inr ("Unknown tool: " +:+ name)).
Proof.
  assert (name ∈ bookkeeping_tools
          ↔ ∃ t, t ∈ get_tools width height ∧ tool_name t = name
                 ∧ name ≠ "computer") as Hcat.
  { assert (tool_name <$> get_tools width height = "computer" :: bookkeeping_tools)
      as Hnames by reflexivity.
    split.
    - intros Hin.
      assert (name ∈ tool_name <$> get_tools width height) as Hin'
          by (rewrite Hnames; by apply list_elem_of_further).
      apply list_elem_of_fmap in Hin' as (t & -> & Ht).
      exists t. repeat split; try done. intros Heq. rewrite Heq in Hin.
      revert Hin.
      exact (proj1 (bool_decide_eq_false ("computer" ∈ bookkeeping_tools)) eq_refl).
    - intros (t & Hin & <- & Hne).
      assert (tool_name t ∈ tool_name <$> get_tools width height) as Hin'
          by (apply list_elem_of_fmap; eauto).
      rewrite Hnames in Hin'. by apply elem_of_cons in Hin' as [?|?]. }
  rewrite <- Hcat. split.
  - intros Hin input w Heq.
    by apply (known_tool_answer name input w _ Hin Heq).
  - intros Hknown. destruct (decide (name ∈ bookkeeping_tools)) as [|Hn]; [done|].
    destruct (Hknown no_input (boot Missing)). by rewrite execute_unknown.
Qed.

(** ** The computer tool *)

Import Desktop Devices.

Lemma take_screenshot_run s :
  ∃ added,
    take_screenshot true s
    = (inr (display s (shots s) (last_click s)),
       {| inputs := (inputs s ++ [Capture (last_click s)])%list;
          last_click := last_click s; shots := S (shots s);
          display := display s; digest := digest s;
          notes := (notes s ++ added)%list |}).
Proof.
  unfold take_screenshot, reads, changes, input, note, mbind, D_bind, mret, D_ret.
  destruct s as [ins click n shown dig nts]. simpl.
  destruct (shown n click) as [data|]; simpl.
  - destruct click as [[x y]|]; simpl.
    + by eexists [_].
    + exists []. by rewrite app_nil_r.
  - by eexists [_].
Qed.

Ltac shoot :=
  repeat match goal with
         | |- context [take_screenshot true ?s] =>
             let added := fresh "added" in
             let H := fresh "H" in
             destruct (take_screenshot_run s) as [added H]; rewrite H; clear H;
             simpl
         end.

Ltac act :=
  unfold execute_computer_tool, Desktop.sleep, set_last_click, reads, changes,
    raises, input, note, mbind, D_bind, mret, D_ret;
  simpl.

Lemma execute_computer_tool_shape (tool_input : ComputerInput) (scroll_counter : Z)
    (s : Screen) (content : list ResultItem) (counter : Z) :
  (execute_computer_tool tool_input scroll_counter s).1 = inr (content, counter) →
  ((∃ ack, content = [RText ack])
   ∨ (∃ shot, content = [image shot])
   ∨ (∃ ack shot, content = [RText ack; image shot]))
  ∧ (action tool_input = Some "mouse_move" ∨ action tool_input ∉ (Some <$> actions) →
       ∃ ack, content = [RText ack]).
Proof.
  unfold execute_computer_tool.
  destruct (action tool_input) as [a|]; simpl.
  2: { intros [= <- <-]. split; eauto. }
  repeat match goal with
         | |- context [String.eqb a ?name] =>
             destruct (String.eqb a name) eqn:?
         end;
    repeat match goal with
           | H : String.eqb a _ = true |- _ => apply String.eqb_eq in H; subst a
           | H : String.eqb a _ = false |- _ => apply String.eqb_neq in H
           end.
  all: act; shoot.
  all: repeat match goal with
              | |- context [default ?d ?o] => destruct (default d o) as [? ?]
              | |- context [if ?b then _ else _] => destruct b eqn:?
              | |- context [match ?o with Some _ => _ | None => _ end] =>
                  destruct o eqn:?
              end; simpl; shoot.
  all: try (intros [= <- <-]); try discriminate.
  all: split; [eauto 6|].
  all: intros [Hm|Hn]; try discriminate; eauto.
  all: exfalso; apply Hn; unfold actions;
    repeat first [by apply list_elem_of_here | apply list_elem_of_further].
Qed.

(** The content of a result of the computer tool is an acknowledgement,
    a screenshot, or an acknowledgement followed by a screenshot: never
    more than one image, and none for a move of the pointer or an action
    that is not known. *)
Theorem computer_result_shape (tool_input : ComputerInput) (scroll_counter : Z)
    (s : Screen) (content : list ResultItem) (counter : Z) :
  (execute_computer_tool tool_input scroll_counter s).1 = inr (content, counter) →
  ((∃ ack, content = [RText ack])
   ∨ (∃ shot, content = [image shot])
   ∨ (∃ ack shot, content = [RText ack; image shot]))
  ∧ (action tool_input = Some "mouse_move" ∨ action tool_input ∉ (Some <$> actions) →
       ∃ ack, content = [RText ack]).
Proof. apply execute_computer_tool_shape. Qed.

Lemma computer_result_shape_witness :
  ∃ ack shot,
    (execute_computer_tool (at_point "left_click" 10 20) 0 idle).1
    = inr ([RText ack; image shot], 0%Z).
Proof.
  destruct (computer_result_shape (at_point "left_click" 10 20) 0 idle
              _ _ eq_refl) as [[H|[H|H]] _].
  - destruct H as [ack H]. discriminate H.
  - destruct H as [shot H]. discriminate H.
  - destruct H as (ack & shot & H). exists ack, shot. simpl. by rewrite <- H.
Defined.

Lemma fits_seconds (seconds : Z) :
  if fits (seconds * 1000)
  then (-9223372036 ≤ seconds ≤ 9223372036)%Z
  else (seconds < -9223372036 ∨ 9223372036 < seconds)%Z.
Proof.
  unfold fits.
  destruct (Z.leb_spec (-9223372036854775808) (seconds * 1000 * 1000000));
    destruct (Z.leb_spec (seconds * 1000 * 1000000) 9223372036854775807);
    simpl; lia.
Qed.

Lemma execute_computer_tool_run (tool_input : ComputerInput) (scroll_counter : Z)
    (s : Screen) :
  (∃ e, execute_computer_tool tool_input scroll_counter s = (inl e, s)
        ∧ action tool_input = Some "wait"
        ∧ ((e = OverflowError
            ∧ (default 1 (duration tool_input) < -9223372036
               ∨ 9223372036 < default 1 (duration tool_input))%Z)
           ∨ (e = ValueError
              ∧ (-9223372036 ≤ default 1 (duration tool_input) < 0)%Z)))
  ∨ ∃ content s',
      execute_computer_tool tool_input scroll_counter s
      = (inr (content,
              if named (action tool_input) "scroll" then (scroll_counter + 1)%Z
              else scroll_counter), s')
      ∧ (∃ added,
           inputs s' = (inputs s ++ added)%list
           ∧ shots s' = (shots s + length (filter (λ i, is_capture i) added))%nat
           ∧ ∀ m, Capture m ∈ added → m = last_click s')
      ∧ last_click s' = match clicked tool_input with
                        | Some p => Some p
                        | None => last_click s
                        end
      ∧ display s' = display s
      ∧ digest s' = digest s
      ∧ (∃ noted, notes s' = (notes s ++ noted)%list)
      ∧ (action tool_input = Some "wait" →
           (0 ≤ default 1 (duration tool_input) ≤ 9223372036)%Z).
Proof.
  destruct s as [ins click n shown dig nts].
  unfold execute_computer_tool, clicked.
  destruct (action tool_input) as [a|]; simpl.
  2: { right. do 2 eexists. split; [done|]. simpl.
       split; [exists []; rewrite app_nil_r; simpl;
               split; [done|split; [lia|by intros m ?%elem_of_nil]]|].
       repeat split; try done. exists []. by rewrite app_nil_r. }
  repeat match goal with
         | |- context [String.eqb a ?name] =>
             destruct (String.eqb a name) eqn:?
         end;
    repeat match goal with
           | H : String.eqb a _ = true |- _ => apply String.eqb_eq in H; subst a
           | H : String.eqb a _ = false |- _ => apply String.eqb_neq in H
           end;
    try discriminate.
  all: act; shoot.
  all: repeat match goal with
              | |- context [default ?d (coordinate ?t)] =>
                  destruct (default d (coordinate t)) as [? ?]
              | |- context [default ?d (start_coordinate ?t)] =>
                  destruct (default d (start_coordinate t)) as [? ?]
              end; simpl; shoot.
  all: repeat match goal with
              | |- context [if contains ?c ?k then _ else _] =>
                  destruct (contains c k)
              | |- context [if String.eqb ?x ?y then _ else _] =>
                  destruct (String.eqb x y)
              | |- context [fits (?d * 1000)] =>
                  let H := fresh "Hfits" in
                  pose proof (fits_seconds d) as H;
                  destruct (fits (d * 1000))
              | |- context [if (?x <? ?y)%Z then _ else _] =>
                  destruct (Z.ltb_spec x y)
              | |- context [match ?f ?i ?m with Some _ => _ | None => _ end] =>
                  destruct (f i m) eqn:?
              end; simpl; shoot.
  all: try (left; eexists; split; [reflexivity|]; split; [done|];
            first [left; split; [done|lia] | right; split; [done|lia]]).
  all: right; do 2 eexists; (split; [reflexivity|]);
    unfold with_inputs, with_notes, with_last_click, with_shots; simpl.
  all: split;
    [first [ exists []; rewrite app_nil_r; simpl;
             split; [done|split; [lia|by intros m ?%elem_of_nil]]
           | eexists; rewrite <- ?(assoc_L (++)); simpl;
             split; [reflexivity|split; [simpl; lia|]];
             intros m Hin;
             repeat (apply elem_of_cons in Hin as [Heq|Hin]; [by simplify_eq|]);
             by apply elem_of_nil in Hin ]|].
  all: split; [done|]. all: split; [done|]. all: split; [done|].
  all: split; [|first [discriminate | by intros [= ->] | intros _; lia]].
  all: first [ by exists []; rewrite app_nil_r
             | eexists; rewrite <- ?(assoc_L (++)); reflexivity ].
Qed.

(** An action that is not known, or no action at all, does nothing: the
    answer names the action, no input is made, nothing is captured and
    the count of scrolls stays. *)
Theorem unknown_action_does_nothing (tool_input : ComputerInput)
    (scroll_counter : Z) (s : Screen) :
  action tool_input ∉ (Some <$> actions) →
  execute_computer_tool tool_input scroll_counter s
  = (inr ([RText ("Unknown action: " +:+ default "None" (action tool_input))],
          scroll_counter), s).
Proof.
  intros Hn. unfold execute_computer_tool.
  destruct (action tool_input) as [a|]; [|done]. simpl.
  unfold actions in Hn. rewrite !fmap_cons in Hn.
  repeat (apply not_elem_of_cons in Hn as [? Hn]).
  rewrite !eqb_name by congruence. done.
Qed.

Lemma unknown_action_does_nothing_witness :
  execute_computer_tool (just "triple_click") 7 idle
  = (inr ([RText "Unknown action: triple_click"], 7%Z), idle).
Proof.
  apply (unknown_action_does_nothing (just "triple_click") 7 idle).
  exact (proj1 (bool_decide_eq_false (Some "triple_click" ∈ Some <$> actions))
           eq_refl).
Defined.



(** The count of scrolls goes up by one on a scroll and stays on every
    other action. *)
Theorem scroll_counter_counts_scrolls (tool_input : ComputerInput)
    (scroll_counter : Z) (s : Screen) (content : list ResultItem) (counter : Z) :
  (execute_computer_tool tool_input scroll_counter s).1 = inr (content, counter) →
  (action tool_input = Some "scroll" → counter = (scroll_counter + 1)%Z)
  ∧ (action tool_input ≠ Some "scroll" → counter = scroll_counter).
Proof.
  destruct (execute_computer_tool_run tool_input scroll_counter s)
    as [(e & Hrun & _)|(content' & s' & Hrun & _)]; rewrite Hrun; [done|].
  simpl. intros [= <- <-]. split.
  - by intros ->.
  - intros Hne. destruct (action tool_input) as [a|]; simpl; [|done].
    destruct (String.eqb a "scroll") eqn:Ha; [|done].
    apply String.eqb_eq in Ha. by subst.
Qed.

Lemma scroll_counter_counts_scrolls_witness :
  ∃ content, (execute_computer_tool (just "scroll") 4 idle).1 = inr (content, 5%Z).
Proof.
  destruct (execute_computer_tool (just "scroll") 4 idle) as [[e|[content c]] s']
    eqn:Hrun.
  - exfalso. revert Hrun. vm_compute. discriminate.
  - exists content. simpl.
    destruct (scroll_counter_counts_scrolls (just "scroll") 4 idle content c) as [H _].
    + by rewrite Hrun.
    + by rewrite (H eq_refl).
Defined.

(** Every capture shows the latest click: the captures that an action
    takes carry the marker of the click that the action records, or of
    the last click before it when it records none; and no action clears
    the marker, so the captures after a key, a text, a scroll or a wait
    still show the marker of an earlier click. *)
Theorem captures_show_latest_click (tool_input : ComputerInput)
    (scroll_counter : Z) (s : Screen) :
  let s' := after (execute_computer_tool tool_input scroll_counter) s in
  (∃ added, inputs s' = (inputs s ++ added)%list
            ∧ shots s' = (shots s + length (filter (λ i, is_capture i) added))%nat
            ∧ ∀ marker, Capture marker ∈ added → marker = last_click s')
  ∧ last_click s' = match clicked tool_input with
                    | Some p => Some p
                    | None => last_click s
                    end
  ∧ (is_Some (last_click s) → is_Some (last_click s')).
Proof.
  intros s'. subst s'. unfold after.
  destruct (execute_computer_tool_run tool_input scroll_counter s)
    as [(e & Hrun & _)|(content' & s' & Hrun & Hin & Hc & _)]; rewrite Hrun; simpl.
  - assert (clicked tool_input = None) as ->.
    { unfold clicked.
      destruct (execute_computer_tool_run tool_input scroll_counter s)
        as [(? & _ & -> & _)|(? & ? & Hrun' & _)]; [done|].
      by rewrite Hrun in Hrun'. }
    split; [|done]. exists []. rewrite app_nil_r. simpl.
    split; [done|]. split; [lia|]. by intros m ?%elem_of_nil.
  - split; [done|]. split; [done|]. rewrite Hc.
    by destruct (clicked tool_input).
Qed.

Lemma captures_show_latest_click_witness :
  let s1 := after (execute_computer_tool (at_point "left_click" 10 20) 0) idle in
  last_click (after (execute_computer_tool (just "key") 0) s1) = Some (10, 20)%Z
  ∧ is_Some (last_click (after (execute_computer_tool (just "wait") 0) s1)).
Proof.
  intros s1. split.
  - exact (proj1 (proj2 (captures_show_latest_click (just "key") 0 s1))).
  - apply (proj2 (proj2 (captures_show_latest_click (just "wait") 0 s1))).
    by eexists.
Defined.

(** A scroll in a direction that is none of the four scrolls nothing and
    still counts: the pointer is moved, the screen is captured before and
    after the wait, no scroll is sent, and the count of scrolls goes up by
    one. *)
Theorem scroll_in_unknown_direction (tool_input : ComputerInput)
    (scroll_counter : Z) (s : Screen) :
  action tool_input = Some "scroll" →
  default "down" (scroll_direction tool_input) ∉ directions →
  ∃ msg shot s',
    execute_computer_tool tool_input scroll_counter s
    = (inr ([RText msg; image shot], (scroll_counter + 1)%Z), s')
    ∧ inputs s'
      = (inputs s
         ++ [ MoveTo (default (756, 491)%Z (coordinate tool_input)).1
                     (default (756, 491)%Z (coordinate tool_input)).2;
              Capture (last_click s); Pause 1000; Capture (last_click s) ])%list.
Proof.
  intros Ha Hd. unfold directions in Hd.
  repeat (apply not_elem_of_cons in Hd as [? Hd]).
  destruct s as [ins click n shown dig nts].
  unfold execute_computer_tool. rewrite Ha. simpl. act. shoot.
  rewrite !eqb_name by done. simpl. shoot.
  do 3 eexists. split; [reflexivity|].
  unfold with_inputs. simpl. by rewrite <- !(assoc_L (++)).
Qed.

Lemma scroll_in_unknown_direction_witness :
  ∃ msg shot s',
    execute_computer_tool
      {| action := Some "scroll"; coordinate := None; start_coordinate := None;
         text := None; scroll_direction := Some "sideways";
         scroll_amount := Some 5%Z; duration := None |} 0 idle
    = (inr ([RText msg; image shot], 1%Z), s')
    ∧ inputs s' = [MoveTo 756 491; Capture None; Pause 1000; Capture None].
Proof.
  apply (scroll_in_unknown_direction
           {| action := Some "scroll"; coordinate := None; start_coordinate := None;
              text := None; scroll_direction := Some "sideways";
              scroll_amount := Some 5%Z; duration := None |} 0 idle eq_refl).
  exact (proj1 (bool_decide_eq_false ("sideways" ∈ directions)) eq_refl).
Defined.

(** A failed capture is noticed by the screenshot action only: the
    actions that end with a capture always answer with an acknowledgement
    and an image whose data is what the last capture gave, [None] when it
    failed; the screenshot action answers with the image when the capture
    gave a text that is not empty and with ["Screenshot failed"]
    otherwise. *)
Theorem failed_capture_is_passed_on (tool_input : ComputerInput)
    (scroll_counter : Z) (s : Screen) (content : list ResultItem) (counter : Z) :
  (execute_computer_tool tool_input scroll_counter s).1 = inr (content, counter) →
  let s' := after (execute_computer_tool tool_input scroll_counter) s in
  (action tool_input ∈ (Some <$> capturing) →
     ∃ ack, content = [RText ack; image (display s (shots s' - 1) (last_click s'))])
  ∧ (action tool_input = Some "screenshot" →
       match display s (shots s) (last_click s) with
       | Some data =>
           if String.eqb data "" then content = [RText "Screenshot failed"]
           else content = [image (Some data)]
       | None => content = [RText "Screenshot failed"]
       end).
Proof.
  destruct s as [ins click n shown dig nts].
  unfold after, execute_computer_tool, capturing.
  destruct (action tool_input) as [a|]; simpl.
  2: { intros [= <- <-]. split; [|done]. rewrite ?fmap_cons.
       intros Hin. repeat (apply elem_of_cons in Hin as [?|Hin]; [done|]).
       by apply elem_of_nil in Hin. }
  repeat match goal with
         | |- context [String.eqb a ?name] =>
             destruct (String.eqb a name) eqn:?
         end;
    repeat match goal with
           | H : String.eqb a _ = true |- _ => apply String.eqb_eq in H; subst a
           | H : String.eqb a _ = false |- _ => apply String.eqb_neq in H
           end;
    try discriminate.
  all: act; shoot.
  all: repeat match goal with
              | |- context [default ?d (coordinate ?t)] =>
                  destruct (default d (coordinate t)) as [? ?]
              | |- context [default ?d (start_coordinate ?t)] =>
                  destruct (default d (start_coordinate t)) as [? ?]
              end; simpl; shoot.
  all: repeat match goal with
              | |- context [if contains ?c ?k then _ else _] =>
                  destruct (contains c k)
              | |- context [if String.eqb ?x ?y then _ else _] =>
                  destruct (String.eqb x y) eqn:?
              | |- context [fits ?x] => destruct (fits x)
              | |- context [if (?x <? ?y)%Z then _ else _] =>
                  destruct (Z.ltb_spec x y)
              | |- context [match ?f ?i ?m with Some _ => _ | None => _ end] =>
                  destruct (f i m) eqn:?
              end; simpl; shoot.
  all: try discriminate.
  all: intros [= <- <-]; rewrite ?Nat.sub_0_r;
    repeat match goal with
           | H : _ = Some _ |- _ => rewrite H
           | H : _ = None |- _ => rewrite H
           end.
  all: split; [|first [done | discriminate | by intros [= ->]]].
  all: try (intros _; by eexists).
  all: rewrite ?fmap_cons; intros Hin;
    repeat (apply elem_of_cons in Hin as [Heq|Hin]; [by simplify_eq|]);
    by apply elem_of_nil in Hin.
Qed.

Lemma failed_capture_is_passed_on_witness :
  (execute_computer_tool (at_point "left_click" 10 20) 0 blind).1
  = inr ([ RText "Clicked (10, 20) - RED MARKER shows where click landed";
           image None ], 0%Z)
  ∧ (execute_computer_tool (just "screenshot") 0 blind).1
    = inr ([RText "Screenshot failed"], 0%Z).
Proof.
  split.
  - destruct (proj1 (failed_capture_is_passed_on (at_point "left_click" 10 20) 0
                       blind _ _ eq_refl)) as [ack Hack].
    + apply list_elem_of_fmap. exists "left_click". split; [done|].
      unfold capturing. apply list_elem_of_here.
    + reflexivity.
  - pose proof (proj2 (failed_capture_is_passed_on (just "screenshot") 0
                         blind _ _ eq_refl) eq_refl) as H.
    simpl in H. reflexivity.
Defined.

(** ** The tool calls of a reply *)

Import Loop.







